(** * NaiBahu front end: cart store, order page handlers and table grid

    A shallow embedding of the business rules of the restaurant
    point-of-sale client:

    - [OrderStore]  : the zustand order store (store/orderStore, the second
      document of src/unnamed/part_004): [addItem], [removeItem],
      [updateQuantity], [updateInstructions], [clearCart], [setTableId],
      [getSubtotal], [getTax], [getTotal], [getItemCount];
    - [Client]      : the axios client (lib/api/client, the second document
      of src/unnamed/part_000): the response interceptor, [getApiError],
      [showApiError], and the API functions built on them;
    - [OrderPage]   : the handlers of the order taking page
      (src/unnamed/part_003): [handleAddItem],
      [handleUpdateSpicePreference], [fetchTableData], [handleGenerateKOT];
    - [TableStore], [Dashboard] : the table store (src/unnamed/part_005) and
      [fetchTables] of the captain dashboard (src/unnamed/part_002);
    - [TableGrid]   : the aggregation of duplicate table rows, the grouping
      by block and the ordering inside a block (the Table Grid component,
      second document of src/components/captain/BillModal.tsx).

    Modelling conventions.

    - A JavaScript [number] is an IEEE 754 binary64 value, in the
      formalisation of the Standard Library ([SpecFloat], precision 53,
      [emax] 1024): every sum and product is rounded to the nearest value,
      ties to even.  Quantities and identifiers are integers ([Z]) and are
      converted where they meet a price.
    - A string is a sequence of code units below 256.  [parseFloat] follows
      the StrDecimalLiteral prefix grammar of ECMAScript and takes the
      number value of the decimal it reads, correctly rounded; [toString]
      and [toFixed2] are [Number::toString] and [Number.prototype.toFixed]
      at two digits, the latter with the exponent form from 10^21 on.
    - The default collation of the host, which [localeCompare] uses, is a
      parameter of the grid; what is assumed of it is stated where it is
      used.
    - A zustand [set] is synchronous, so an action is a function on the store
      state, and a handler is the composition of the actions it calls,
      applied to the store as it is when the handler runs.
    - The reply to a backend request is a parameter of the handler; the
      client's interceptor and [showApiError] act on a failed one before the
      handler sees the rejection.
    - The insertion ordered [Map] of the table grid is an association list;
      the plain object of the grouping is one too, with the properties that
      every object inherits kept apart. *)

From Stdlib Require Import ZArith QArith Qround List String Ascii Bool Lia.
From Stdlib Require Import Floats.SpecFloat.
From Stdlib Require Import Permutation Sorted.
Import ListNotations.
Local Open Scope Z_scope.

(* ================================================================== *)
(** ** The JavaScript runtime: numbers, [parseFloat], [toFixed(2)]     *)
(* ================================================================== *)

Module JS.

(** *** Numbers: IEEE 754 binary64 *)

Definition prec : Z := 53.
Definition emax : Z := 1024.

(** A JavaScript number: a binary64 value, with one NaN. *)
Definition number : Type := spec_float.

Definition NaN : number := S754_nan.
Definition Infinity : number := S754_infinity false.
Definition zero : number := S754_zero false.

(** [x + y], [x * y] and [-x], each rounded to the nearest binary64 value,
    ties to even. *)
Definition add (x y : number) : number := SFadd prec emax x y.
Definition mul (x y : number) : number := SFmul prec emax x y.
Definition neg (x : number) : number := SFopp x.

(** The number of an integer (a quantity used in arithmetic with a price):
    the nearest binary64 value. *)
Definition of_Z (z : Z) : number := binary_normalize prec emax z 0 false.

(** The whole number [n], [0 < n < 2^53], written out as a binary64 value:
    a mantissa of 53 digits. *)
Definition whole (s : bool) (n : Z) : number :=
  S754_finite s (Z.to_pos (n * 2 ^ (53 - Zdigits2 n))) (Zdigits2 n - 53).

(** The binary64 value nearest to [p / q], for positive [p] and [q]. *)
Definition nearest (p q : Z) : number :=
  let '(m, e, l) := SFdiv_core_binary prec emax p 0 q 0 in
  binary_round_aux prec emax false m e l.

(** The number value of the decimal [m * 10^e], for [m] not negative. *)
Definition dec (m e : Z) : number :=
  if 0 <=? e then of_Z (m * 10 ^ e)
  else if m =? 0 then zero
  else nearest m (10 ^ (- e)).

(** The magnitude [m * 2^e] of a finite number as a fraction. *)
Definition fraction (m : positive) (e : Z) : Z * Z :=
  if 0 <=? e then (Zpos m * 2 ^ e, 1) else (Zpos m, 2 ^ (- e)).


(** [x >= y], [x === y]: false as soon as one side is [NaN]. *)
Definition ge (x y : number) : bool := SFleb y x.
Definition eq (x y : number) : bool := SFeqb x y.

(** *** Decimal digits *)

Definition digit_char (d : Z) : ascii := ascii_of_nat (Z.to_nat (48 + d)).

Fixpoint digits_fuel (fuel : nat) (n : Z) (acc : string) : string :=
  match fuel with
  | O => acc
  | S f =>
      let acc' := String (digit_char (n mod 10)) acc in
      if n <? 10 then acc' else digits_fuel f (n / 10) acc'
  end.

(** The decimal digits of a natural number. *)
Definition string_of_nonneg (n : Z) : string :=
  digits_fuel (S (Z.to_nat (Z.log2 n))) n EmptyString.

Fixpoint zeros (n : nat) : string :=
  match n with
  | O => EmptyString
  | S n' => String "0" (zeros n')
  end.

(** *** Number::toString

    For a finite [x > 0] ECMAScript takes integers [n], [k] and [s] with
    [10^(k-1) <= s < 10^k] such that [s * 10^(n-k)] has the number value
    [x] and [k] is as small as possible; of several [s] the one nearest to
    [x], as the implementations do. *)

(** The [n] with [10^(n-1) <= p/q < 10^n]. *)
Fixpoint count_up (fuel : nat) (i : Z) (n : Z) : Z :=
  match fuel with
  | O => n
  | S f => if i <? 10 then n else count_up f (i / 10) (n + 1)
  end.

Fixpoint count_down (fuel : nat) (p q : Z) (n : Z) : Z :=
  match fuel with
  | O => n
  | S f => if q <=? p * 10 then n else count_down f (p * 10) q (n - 1)
  end.

Definition decimal_exponent (p q : Z) : Z :=
  if q <=? p then count_up (S (Z.to_nat (Z.log2 (p / q)))) (p / q) 1
  else count_down (S (Z.to_nat (Z.log2 q))) p q 0.

(** The candidates with [k] digits: the two neighbours of [p/q] among the
    multiples of [10^(n-k)]; the one that reads back as [x], the nearer one
    when both do. *)
Definition candidate (x : number) (p q n k : Z) : option Z :=
  let '(num, den) :=
    if 0 <=? k - n then (p * 10 ^ (k - n), q) else (p, q * 10 ^ (n - k)) in
  let lo := num / den in
  let r := num mod den in
  let ok_lo := eq (dec lo (n - k)) x in
  let ok_hi := eq (dec (lo + 1) (n - k)) x in
  match ok_lo, ok_hi with
  | true, true =>
      match 2 * r ?= den with
      | Lt => Some lo
      | Gt => Some (lo + 1)
      | Eq => if Z.even lo then Some lo else Some (lo + 1)
      end
  | true, false => Some lo
  | false, true => Some (lo + 1)
  | false, false => None
  end.

(** The shortest digits: [s], and [n] moved up when [s] is the carry
    [10^k]. *)
Fixpoint shortest (fuel : nat) (x : number) (p q n k : Z) : Z * Z :=
  match fuel with
  | O => (p * 10 ^ (k - n) / q, n)
  | S f =>
      match candidate x p q n k with
      | Some s => if s =? 10 ^ k then (1, n + 1) else (s, n)
      | None => shortest f x p q n (k + 1)
      end
  end.

Definition substring_from (i : nat) (s : string) : string :=
  substring i (String.length s - i) s.

(** The text of the digits [ds] with the decimal point after [n] of them. *)
Definition format (ds : string) (n : Z) : string :=
  let k := Z.of_nat (String.length ds) in
  if (k <=? n) && (n <=? 21) then (ds ++ zeros (Z.to_nat (n - k)))%string
  else if (0 <? n) && (n <=? 21) then
    (substring 0 (Z.to_nat n) ds ++ "." ++ substring_from (Z.to_nat n) ds)%string
  else if (-6 <? n) && (n <=? 0) then
    ("0." ++ zeros (Z.to_nat (- n)) ++ ds)%string
  else
    let e := n - 1 in
    let mantissa :=
      if k =? 1 then ds
      else (substring 0 1 ds ++ "." ++ substring_from 1 ds)%string in
    let sign := if 0 <=? e then "+"%string else "-"%string in
    (mantissa ++ "e" ++ sign ++ string_of_nonneg (Z.abs e))%string.

Definition toString_finite (m : positive) (e : Z) : string :=
  let '(p, q) := fraction m e in
  let n := decimal_exponent p q in
  let '(s, n') := shortest 17 (S754_finite false m e) p q n 1 in
  format (string_of_nonneg s) n'.

(** [String(x)] *)
Definition toString (x : number) : string :=
  match x with
  | S754_nan => "NaN"
  | S754_zero _ => "0"
  | S754_infinity false => "Infinity"
  | S754_infinity true => "-Infinity"
  | S754_finite false m e => toString_finite m e
  | S754_finite true m e => String "-" (toString_finite m e)
  end.

(** *** toFixed(2) *)

(** The integer [n] with [n / 100] nearest to [m * 2^e], the larger one on
    a tie. *)
Definition hundredths (m : positive) (e : Z) : Z :=
  let '(p, q) := fraction m e in (200 * p + q) / (2 * q).

Definition fixed2 (n : Z) : string :=
  (string_of_nonneg (n / 100) ++
   String "." (String (digit_char (n mod 100 / 10))
              (String (digit_char (n mod 10)) EmptyString)))%string.

(** [10^21 <= m * 2^e] *)
Definition at_least_1e21 (m : positive) (e : Z) : bool :=
  let '(p, q) := fraction m e in 10 ^ 21 * q <=? p.

(** [x.toFixed(2)]: the sign of a negative value, then the text of the
    magnitude, which from 10^21 on is [String] of it. *)
Definition toFixed2 (x : number) : string :=
  match x with
  | S754_nan => "NaN"
  | S754_infinity false => "Infinity"
  | S754_infinity true => "-Infinity"
  | S754_zero _ => "0.00"
  | S754_finite s m e =>
      let text := if at_least_1e21 m e then toString_finite m e
                  else fixed2 (hundredths m e) in
      if s then String "-" text else text
  end.

(** *** parseFloat *)

(** White space and line terminators among the code units below 256: TAB,
    LF, VT, FF, CR, SP and NBSP. *)
Definition is_ws (c : ascii) : bool :=
  let n := Z.of_nat (nat_of_ascii c) in
  ((9 <=? n) && (n <=? 13)) || (n =? 32) || (n =? 160).

Fixpoint trim_start (s : string) : string :=
  match s with
  | String c r => if is_ws c then trim_start r else s
  | EmptyString => s
  end.

Definition digit_of (c : ascii) : option Z :=
  let n := Z.of_nat (nat_of_ascii c) in
  if (48 <=? n) && (n <=? 57) then Some (n - 48) else None.

(** The longest run of decimal digits at the head of [s]: the value it adds
    to [acc], the number of digits added to [cnt], and the rest. *)
Fixpoint scan_digits (s : string) (acc cnt : Z) : Z * Z * string :=
  match s with
  | String c r =>
      match digit_of c with
      | Some d => scan_digits r (acc * 10 + d) (cnt + 1)
      | None => (acc, cnt, s)
      end
  | EmptyString => (acc, cnt, s)
  end.

(** ExponentPart, when one is there: [e] or [E], a sign, at least a digit. *)
Definition scan_exponent (s : string) : Z :=
  match s with
  | String c r =>
      if (Ascii.eqb c "e" || Ascii.eqb c "E")%bool then
        match r with
        | String "+" r' =>
            let '(v, n, _) := scan_digits r' 0 0 in if 0 <? n then v else 0
        | String "-" r' =>
            let '(v, n, _) := scan_digits r' 0 0 in if 0 <? n then - v else 0
        | _ =>
            let '(v, n, _) := scan_digits r 0 0 in if 0 <? n then v else 0
        end
      else 0
  | EmptyString => 0
  end.

(** The longest prefix that is [digits], [digits.], [digits.digits] or
    [.digits], each with an optional exponent: mantissa and power of ten. *)
Definition scan_unsigned (s : string) : option (Z * Z) :=
  let '(ip, n1, r1) := scan_digits s 0 0 in
  if 0 <? n1 then
    match r1 with
    | String "." r =>
        let '(m, n2, r2) := scan_digits r ip 0 in
        Some (m, scan_exponent r2 - n2)
    | _ => Some (ip, scan_exponent r1)
    end
  else
    match s with
    | String "." r =>
        let '(m, n2, r2) := scan_digits r 0 0 in
        if 0 <? n2 then Some (m, scan_exponent r2 - n2) else None
    | _ => None
    end.

Definition parse_unsigned (s : string) : number :=
  if prefix "Infinity" s then Infinity
  else match scan_unsigned s with
       | Some (m, e) => dec m e
       | None => NaN
       end.

(** [parseFloat(input)] for a string: [NaN] when no prefix is a number. *)
Definition parseFloat (input : string) : number :=
  match trim_start input with
  | String "+" r => parse_unsigned r
  | String "-" r => neg (parse_unsigned r)
  | s => parse_unsigned s
  end.

(** *** Values of the field [total_amount]

    The type declares [total_amount?: number]; the grid reads it as the
    decimal string the backend sends.  All four shapes are kept. *)
Inductive amount : Type :=
| AUndefined
| ANull
| ANum (x : number)
| AStr (s : string).

(** [a || '0']: undefined, null, 0, -0, NaN and the empty string are
    falsy. *)
Definition or_zero (a : amount) : amount :=
  match a with
  | AUndefined | ANull => AStr "0"
  | ANum S754_nan => AStr "0"
  | ANum (S754_zero _) => AStr "0"
  | ANum _ => a
  | AStr EmptyString => AStr "0"
  | AStr _ => a
  end.

(** [parseFloat(a)]: the argument goes through ToString first. *)
Definition parseFloat_amount (a : amount) : number :=
  match a with
  | AUndefined => parseFloat "undefined"
  | ANull => parseFloat "null"
  | ANum x => parseFloat (toString x)
  | AStr s => parseFloat s
  end.

(** [a || b] on identifiers of type [number | null]: 0 is falsy. *)
Definition or_id (a b : option Z) : option Z :=
  match a with
  | Some n => if n =? 0 then b else a
  | None => b
  end.

(** [a || b] on optional strings: the empty string is falsy. *)
Definition or_str (a b : option string) : option string :=
  match a with
  | Some EmptyString => b
  | Some _ => a
  | None => b
  end.

(** Truthiness of an identifier of type [number | null]. *)
Definition truthy_id (a : option Z) : bool :=
  match a with
  | Some n => negb (n =? 0)
  | None => false
  end.

(** [Array.prototype.sort(cmp)]: a stable sort; an element goes before the
    first one it does not compare greater than.  For a comparison function
    that is consistent, the only case in which ECMAScript fixes the result,
    every stable sort gives this list. *)
Fixpoint insert_by {A : Type} (cmp : A -> A -> comparison) (x : A)
  (l : list A) : list A :=
  match l with
  | [] => [x]
  | y :: l' =>
      match cmp x y with
      | Gt => y :: insert_by cmp x l'
      | _ => x :: l
      end
  end.

Definition sort_by {A : Type} (cmp : A -> A -> comparison) (l : list A)
  : list A :=
  fold_right (insert_by cmp) [] l.

(** A consistent comparison function (ECMAScript, Array.prototype.sort). *)
Definition consistent {A : Type} (cmp : A -> A -> comparison) : Prop :=
  (forall a b, cmp b a = CompOpp (cmp a b)) /\
  (forall a b c, cmp a b <> Gt -> cmp b c <> Gt -> cmp a c <> Gt).

(** A string of ASCII digits. *)
Fixpoint all_digits (s : string) : bool :=
  match s with
  | EmptyString => true
  | String c r =>
      match digit_of c with
      | Some _ => all_digits r
      | None => false
      end
  end.

(** The order of the code units; the default array sort uses it, and every
    collation orders strings of ASCII digits this way when numeric
    collation is off. *)
Definition code_unit_compare (a b : string) : comparison :=
  String.compare a b.

(** A collation that compares strings of ASCII digits digit by digit. *)
Definition digitwise (collate : string -> string -> comparison) : Prop :=
  forall a b, all_digits a = true -> all_digits b = true ->
              collate a b = code_unit_compare a b.

(** A value, or the TypeError that was thrown instead. *)
Inductive result (A : Type) : Type :=
| Value (a : A)
| TypeError.
Arguments Value {A} a.
Arguments TypeError {A}.

(** The names that a plain object inherits from [Object.prototype]; what
    they hold is truthy and has no [push]. *)
Definition object_prototype : list string :=
  [ "constructor"; "__defineGetter__"; "__defineSetter__";
    "hasOwnProperty"; "__lookupGetter__"; "__lookupSetter__";
    "isPrototypeOf"; "propertyIsEnumerable"; "toString"; "valueOf";
    "__proto__"; "toLocaleString" ]%string.

Definition inherited (name : string) : bool :=
  existsb (String.eqb name) object_prototype.

End JS.

(* ================================================================== *)
(** ** Types (src/types/index.ts)                                      *)
(* ================================================================== *)

Module Types.
Import JS.

Inductive SpiceLevel : Type := mild | regular | spicy | extra_spicy.

Inductive TableStatus : Type := empty | running | billed.

(** A row of the table listing.  [order_number] is read by the grid although
    the interface does not declare it; the time stamps [created_at] and
    [updated_at] are only copied and are left out. *)
Record Table : Type := mkTable {
  table_id : Z;
  table_number : string;
  table_block : string;
  seating_capacity : Z;
  status : TableStatus;
  current_order_id : option Z;
  order_number : option string;
  last_occupied_at : option string;
  total_amount : amount
}.

(** The fields of a menu item the cart reads; the descriptive ones
    (category, description, image, flags, time stamps) are only copied. *)
Record MenuItem : Type := mkMenuItem {
  item_id : Z;
  item_name : string;
  price : number;
  is_spicy : bool;
  spice_level : option SpiceLevel
}.

(** [CartItem extends MenuItem]. *)
Record CartItem : Type := mkCartItem {
  base : MenuItem;
  quantity : Z;
  special_instructions : option string;
  spice_preference : option SpiceLevel
}.

Definition cart_id (i : CartItem) : Z := item_id (base i).

(** The response of [createOrder], as far as the page reads it: its
    [order_number]. *)
Record Order : Type := mkOrder {
  order_order_number : string
}.

End Types.

(* ================================================================== *)
(** ** The order store (src/unnamed/part_004)                          *)
(* ================================================================== *)

Module OrderStore.
Import JS Types.

Record State : Type := mkState {
  items : list CartItem;
  tableId : option Z
}.

Definition initial : State := {| items := []; tableId := None |}.

Definition set_quantity (i : CartItem) (q : Z) : CartItem :=
  {| base := base i; quantity := q;
     special_instructions := special_instructions i;
     spice_preference := spice_preference i |}.

Definition set_instructions (i : CartItem) (s : string) : CartItem :=
  {| base := base i; quantity := quantity i;
     special_instructions := Some s;
     spice_preference := spice_preference i |}.

(** [{ ...item, quantity: 1, special_instructions: '' }] *)
Definition new_line (item : CartItem) : CartItem :=
  {| base := base item; quantity := 1;
     special_instructions := Some EmptyString;
     spice_preference := spice_preference item |}.

(** [addItem]: the parameter is declared a [MenuItem]; the page passes cart
    items, and the spread keeps whatever fields the argument has, so the
    argument is a cart item whose quantity and instructions are not read. *)
Definition addItem (item : CartItem) (state : State) : State :=
  match find (fun i => cart_id i =? cart_id item) (items state) with
  | Some existingItem =>
      {| items := map (fun i => if cart_id i =? cart_id item
                                then set_quantity i (quantity i + 1)
                                else i) (items state);
         tableId := tableId state |}
  | None =>
      {| items := items state ++ [new_line item];
         tableId := tableId state |}
  end.

Definition removeItem (itemId : Z) (state : State) : State :=
  {| items := filter (fun item => negb (cart_id item =? itemId)) (items state);
     tableId := tableId state |}.

Definition updateQuantity (itemId quantity : Z) (state : State) : State :=
  if quantity <=? 0 then
    {| items := filter (fun item => negb (cart_id item =? itemId))
                       (items state);
       tableId := tableId state |}
  else
    {| items := map (fun item => if cart_id item =? itemId
                                 then set_quantity item quantity
                                 else item) (items state);
       tableId := tableId state |}.

Definition updateInstructions (itemId : Z) (instructions : string)
  (state : State) : State :=
  {| items := map (fun item => if cart_id item =? itemId
                               then set_instructions item instructions
                               else item) (items state);
     tableId := tableId state |}.

Definition clearCart (state : State) : State :=
  {| items := []; tableId := None |}.

Definition setTableId (t : Z) (state : State) : State :=
  {| items := items state; tableId := Some t |}.

(** [items.reduce((sum, item) => sum + item.price * item.quantity, 0)] *)
Definition getSubtotal (state : State) : number :=
  fold_left (fun sum item => add sum (mul (price (base item))
                                          (of_Z (quantity item))))
            (items state) zero.

(** The literal [0.05]. *)
Definition gst_rate : number := dec 5 (-2).

Definition getTax (state : State) : number :=
  mul (getSubtotal state) gst_rate.

Definition getTotal (state : State) : number :=
  add (getSubtotal state) (getTax state).

Definition getItemCount (state : State) : Z :=
  fold_left (fun sum item => sum + quantity item) (items state) 0.

End OrderStore.

(* ================================================================== *)
(** ** The shapes of a table listing                                   *)
(* ================================================================== *)

(** The shapes in which a table listing arrives, and the two ways the code
    takes the rows out of them. *)
Module Payload.
Import JS Types.

(** The value of a field that may hold the rows: missing or falsy, an
    array of rows, or some other truthy value. *)
Inductive field : Type :=
| Missing
| Rows (rows : list Table)
| Other.

(** The value of the field [data]: missing or falsy, an array of rows, an
    object (with its field [tables]), or some other truthy value. *)
Inductive data_field : Type :=
| NoData
| DataRows (rows : list Table)
| DataObject (tables : field)
| DataOther.

(** A response: an array of rows, an object (with its fields [tables] and
    [data]), or anything else (null, undefined, a primitive). *)
Inductive payload : Type :=
| Array (rows : list Table)
| Object (tables : field) (data : data_field)
| Nothing.

(** The extraction of [TableGrid] (BillModal.tsx, lines 171-181): the four
    alternatives, each guarded by [Array.isArray]. *)
Definition extract_grid (tables : payload) : list Table :=
  match tables with
  | Array rows => rows
  | Object (Rows rows) _ => rows
  | Object _ (DataObject (Rows rows)) => rows
  | Object _ (DataRows rows) => rows
  | _ => []
  end.

(** The extraction of [fetchTableData] (part_003, lines 62-74):
    [data.tables] before [tables], on truthiness alone; [TypeError] is that
    of [allTables.filter] on a value that is not an array. *)
Definition extract_page (tablesResponse : payload) : result (list Table) :=
  match tablesResponse with
  | Array rows => Value rows
  | Object _ (DataObject (Rows rows)) => Value rows
  | Object _ (DataObject Other) => TypeError
  | Object (Rows rows) _ => Value rows
  | Object Other _ => TypeError
  | _ => Value []
  end.

End Payload.

(* ================================================================== *)
(** ** The table store (src/unnamed/part_005)                          *)
(* ================================================================== *)

Module TableStore.
Import JS Types.

(** [tables] is declared [Table[]]; [setTables] stores what the listing
    call returned, whatever its shape. *)
Record State : Type := mkState {
  tables : Payload.payload;
  selectedTable : option Table;
  isLoading : bool
}.

Definition initial : State :=
  {| tables := Payload.Array []; selectedTable := None; isLoading := false |}.

Definition setTables (ts : Payload.payload) (state : State) : State :=
  {| tables := ts; selectedTable := selectedTable state; isLoading := false |}.

Definition setSelectedTable (t : option Table) (state : State) : State :=
  {| tables := tables state; selectedTable := t;
     isLoading := isLoading state |}.

Definition setLoading (loading : bool) (state : State) : State :=
  {| tables := tables state; selectedTable := selectedTable state;
     isLoading := loading |}.

End TableStore.

(* ================================================================== *)
(** ** The API client (src/unnamed/part_000, second document)          *)
(* ================================================================== *)

Module Client.
Import JS.
Local Open Scope string_scope.
Local Open Scope Z_scope.

Inductive toast : Type :=
| ToastError (msg : string)
| ToastSuccess (msg : string).

(** What the client reads and writes outside the stores: whether an access
    token is stored, the path of the window, the notifications shown, and
    the address assigned to [window.location.href], which the browser
    loads once the running code has returned. *)
Record Browser : Type := mkBrowser {
  hasToken : bool;
  pathname : string;
  toasts : list toast;
  href : option string
}.

Definition show (t : toast) (b : Browser) : Browser :=
  {| hasToken := hasToken b; pathname := pathname b;
     toasts := toasts b ++ [t]; href := href b |}.

(** [removeTokens()] *)
Definition removeTokens (b : Browser) : Browser :=
  {| hasToken := false; pathname := pathname b;
     toasts := toasts b; href := href b |}.

(** [window.location.href = path] *)
Definition assign (path : string) (b : Browser) : Browser :=
  {| hasToken := hasToken b; pathname := pathname b;
     toasts := toasts b; href := Some path |}.

(** [error.response.data], when it is truthy: its [message] and the
    messages of its [errors]. *)
Record ErrorData : Type := mkErrorData {
  data_message : option string;
  data_errors : list string
}.

(** A rejected request: a response with a status outside 2xx, or no
    response at all (network error, timeout); [message] is
    [error.message]. *)
Inductive failure : Type :=
| Status (code : Z) (data : option ErrorData) (message : string)
| NoResponse (message : string).

(** The rejection handler of the response interceptor (lines 204-262).
    A request is sent once, so [_retry] is not yet set when it fails. *)
Definition on_rejected (f : failure) (b : Browser) : Browser :=
  match f with
  | Status code _ _ =>
      let b :=
        if code =? 401 then
          if hasToken b then
            let b := removeTokens b in
            let b := show (ToastError "Session expired. Please login again.")
                          b in
            if String.eqb (pathname b) "/" then b else assign "/" b
          else b
        else b in
      let b :=
        if code =? 403 then
          show (ToastError
                  "You do not have permission to perform this action") b
        else b in
      let b :=
        if code =? 404 then show (ToastError "Resource not found") b
        else b in
      if code =? 500 then
        show (ToastError "Server error. Please try again later.") b
      else b
  | NoResponse _ =>
      show (ToastError "Network error. Please check your connection.") b
  end.

(** [getApiError(error).message] and the first of its [errors]. *)
Definition api_message (data : option ErrorData) (message : string)
  : string :=
  match data with
  | Some d =>
      match data_errors d with
      | first :: _ => first
      | [] => match data_message d with
              | Some EmptyString | None => "An error occurred"
              | Some m => m
              end
      end
  | None =>
      match message with
      | EmptyString => "An unexpected error occurred"
      | m => m
      end
  end.

(** [showApiError(error)] *)
Definition showApiError (data : option ErrorData) (message : string)
  (b : Browser) : Browser :=
  show (ToastError (api_message data message)) b.

(** The reply to a request: the [data] field of a 2xx body (read as
    [response.data.data]), a 2xx whose body is null, so that reading its
    [data] throws a TypeError with [message], or a rejection. *)
Inductive reply (A : Type) : Type :=
| Fulfilled (data : A)
| NullBody (message : string)
| Refused (f : failure).
Arguments Fulfilled {A} data.
Arguments NullBody {A} message.
Arguments Refused {A} f.

(** What an API function does for its caller: it returns, or it throws what
    it caught. *)
Inductive outcome (A : Type) : Type :=
| Returned (a : A)
| Thrown.
Arguments Returned {A} a.
Arguments Thrown {A}.

(** An API function ([createOrder], [getAllTables], ...):
    [try { return (await apiClient.request).data.data }
     catch (error) { showApiError(error); throw error }]. *)
Definition request {A : Type} (r : reply A) (b : Browser)
  : outcome A * Browser :=
  match r with
  | Fulfilled data => (Returned data, b)
  | NullBody message => (Thrown, showApiError None message b)
  | Refused f =>
      let b := on_rejected f b in
      match f with
      | Status _ data message => (Thrown, showApiError data message b)
      | NoResponse message => (Thrown, showApiError None message b)
      end
  end.

(** A failure on which the client ends the session: a 401 while a token is
    stored. *)
Definition ends_session (f : failure) (b : Browser) : bool :=
  match f with
  | Status code _ _ => (code =? 401) && hasToken b
  | NoResponse _ => false
  end.

Definition session_ended {A : Type} (r : reply A) (b : Browser) : bool :=
  match r with
  | Refused f => ends_session f b
  | _ => false
  end.

(** A reply on which the API function throws. *)
Definition failed {A : Type} (r : reply A) : bool :=
  match r with
  | Fulfilled _ => false
  | _ => true
  end.

(** A reply to [createOrder] that brings no order. *)
Definition no_order {A : Type} (r : reply (option A)) : bool :=
  match r with
  | Fulfilled (Some _) => false
  | _ => true
  end.

End Client.

(* ================================================================== *)
(** ** The order taking page (src/unnamed/part_003)                    *)
(* ================================================================== *)

Module OrderPage.
Import JS Types Client.
Local Open Scope string_scope.
Local Open Scope Z_scope.

(** What the page does to the outside besides notifications: the print
    window of a KOT, and navigation inside the application. *)
Inductive effect : Type :=
| PrintKOT (lines : list CartItem) (table_no : option string)
    (order_no : string)
| Navigate (path : string).

(** The order store, the part of the table store and the component state
    that the handlers touch, the log of effects, and the browser. *)
Record State : Type := mkState {
  cart : OrderStore.State;
  selectedTable : option Table;
  existingOrders : list Table;
  isLoading : bool;
  isGeneratingKOT : bool;
  kotNumber : string;
  log : list effect;
  browser : Browser
}.

Definition with_cart (f : OrderStore.State -> OrderStore.State) (s : State)
  : State :=
  {| cart := f (cart s); selectedTable := selectedTable s;
     existingOrders := existingOrders s; isLoading := isLoading s;
     isGeneratingKOT := isGeneratingKOT s; kotNumber := kotNumber s;
     log := log s; browser := browser s |}.

Definition with_browser (b : Browser) (s : State) : State :=
  {| cart := cart s; selectedTable := selectedTable s;
     existingOrders := existingOrders s; isLoading := isLoading s;
     isGeneratingKOT := isGeneratingKOT s; kotNumber := kotNumber s;
     log := log s; browser := b |}.

Definition notify (t : toast) (s : State) : State :=
  with_browser (show t (browser s)) s.

Definition emit (e : effect) (s : State) : State :=
  {| cart := cart s; selectedTable := selectedTable s;
     existingOrders := existingOrders s; isLoading := isLoading s;
     isGeneratingKOT := isGeneratingKOT s; kotNumber := kotNumber s;
     log := log s ++ [e]; browser := browser s |}.

Definition setIsLoading (b : bool) (s : State) : State :=
  {| cart := cart s; selectedTable := selectedTable s;
     existingOrders := existingOrders s; isLoading := b;
     isGeneratingKOT := isGeneratingKOT s; kotNumber := kotNumber s;
     log := log s; browser := browser s |}.

Definition setIsGeneratingKOT (b : bool) (s : State) : State :=
  {| cart := cart s; selectedTable := selectedTable s;
     existingOrders := existingOrders s; isLoading := isLoading s;
     isGeneratingKOT := b; kotNumber := kotNumber s;
     log := log s; browser := browser s |}.

Definition setKotNumber (n : string) (s : State) : State :=
  {| cart := cart s; selectedTable := selectedTable s;
     existingOrders := existingOrders s; isLoading := isLoading s;
     isGeneratingKOT := isGeneratingKOT s; kotNumber := n;
     log := log s; browser := browser s |}.

Definition setSelectedTable (t : option Table) (s : State) : State :=
  {| cart := cart s; selectedTable := t;
     existingOrders := existingOrders s; isLoading := isLoading s;
     isGeneratingKOT := isGeneratingKOT s; kotNumber := kotNumber s;
     log := log s; browser := browser s |}.

Definition setExistingOrders (l : list Table) (s : State) : State :=
  {| cart := cart s; selectedTable := selectedTable s;
     existingOrders := l; isLoading := isLoading s;
     isGeneratingKOT := isGeneratingKOT s; kotNumber := kotNumber s;
     log := log s; browser := browser s |}.

(** The cart item that [handleAddItem] builds from a menu item. *)
Definition cartItem_of (menuItem : MenuItem) : CartItem :=
  {| base := menuItem; quantity := 1;
     special_instructions := Some EmptyString;
     spice_preference := spice_level menuItem |}.

Definition handleAddItem (menuItem : MenuItem) (s : OrderStore.State)
  : OrderStore.State :=
  match find (fun item => cart_id item =? item_id menuItem)
             (OrderStore.items s) with
  | Some existingItem =>
      OrderStore.updateQuantity (item_id menuItem)
                                (quantity existingItem + 1) s
  | None => OrderStore.addItem (cartItem_of menuItem) s
  end.

Definition set_spice (i : CartItem) (l : SpiceLevel) : CartItem :=
  {| base := base i; quantity := quantity i;
     special_instructions := special_instructions i;
     spice_preference := Some l |}.

(** [clearCart(); updatedItems.forEach(item => addItemToStore(item))] *)
Definition handleUpdateSpicePreference (itemId : Z) (spiceLevel : SpiceLevel)
  (s : OrderStore.State) : OrderStore.State :=
  let updatedItems :=
    map (fun item => if cart_id item =? itemId
                     then set_spice item spiceLevel else item)
        (OrderStore.items s) in
  fold_left (fun st item => OrderStore.addItem item st) updatedItems
            (OrderStore.clearCart s).

(** [items.reduce((sum, item) => sum + (item.price * item.quantity), 0)] *)
Definition subtotal (s : OrderStore.State) : number :=
  fold_left (fun sum item => add sum (mul (price (base item))
                                          (of_Z (quantity item))))
            (OrderStore.items s) zero.

Definition tax (s : OrderStore.State) : number :=
  mul (subtotal s) (dec 5 (-2)).

Definition total (s : OrderStore.State) : number :=
  add (subtotal s) (tax s).

(** The [catch] and [finally] blocks of [fetchTableData]. *)
Definition fetchTableData_failed (s : State) : State :=
  setIsLoading false
    (emit (Navigate "/captain")
       (notify (ToastError "Failed to load table data") s)).

(** [fetchTableData]; [tablesResponse] is the reply to the listing call. *)
Definition fetchTableData (tableId : Z)
  (tablesResponse : reply Payload.payload) (s : State) : State :=
  let s := setIsLoading true s in
  let '(r, b) := request tablesResponse (browser s) in
  let s := with_browser b s in
  match r with
  | Thrown => fetchTableData_failed s
  | Returned p =>
      match Payload.extract_page p with
      | TypeError => fetchTableData_failed s
      | Value allTables =>
          let tableEntries :=
            filter (fun t => table_id t =? tableId) allTables in
          match tableEntries with
          | [] => fetchTableData_failed s
          | tableInfo :: _ =>
              let s := setSelectedTable (Some tableInfo) s in
              let s :=
                match status tableInfo with
                | running =>
                    setExistingOrders
                      (filter (fun t => truthy_id (current_order_id t))
                              tableEntries) s
                | _ => setExistingOrders [] s
                end in
              setIsLoading false s
          end
      end
  end.

(** The [catch] and [finally] blocks of [handleGenerateKOT]. *)
Definition handleGenerateKOT_failed (s : State) : State :=
  setIsGeneratingKOT false
    (notify (ToastError "Failed to generate KOT") s).

(** [handleGenerateKOT]; [created] is the reply to [ordersApi.createOrder],
    whose [data] may be missing, and [tablesResponse] the reply to the
    refresh which follows a success. *)
Definition handleGenerateKOT (tableId : Z) (created : reply (option Order))
  (tablesResponse : reply Payload.payload) (s : State) : State :=
  match OrderStore.items (cart s) with
  | [] => notify (ToastError "Please add items to generate KOT") s
  | _ :: _ =>
      let s := setIsGeneratingKOT true s in
      let '(r, b) := request created (browser s) in
      let s := with_browser b s in
      match r with
      | Thrown => handleGenerateKOT_failed s
      | Returned None => handleGenerateKOT_failed s
      | Returned (Some resp) =>
          let s := setKotNumber (order_order_number resp) s in
          let s := emit (PrintKOT (OrderStore.items (cart s))
                                  (option_map table_number (selectedTable s))
                                  (order_order_number resp)) s in
          let s := notify (ToastSuccess
                             ("KOT #" ++ order_order_number resp
                                      ++ " generated successfully!")) s in
          let s := with_cart OrderStore.clearCart s in
          let s := fetchTableData tableId tablesResponse s in
          setIsGeneratingKOT false s
      end
  end.

(** The page that the browser shows once the handler has returned: a
    navigation started through [window.location.href] loads a new
    document, in which the stores, which are not persisted, and the
    component state start afresh. *)
Definition settle (s : State) : State :=
  match href (browser s) with
  | Some path =>
      {| cart := OrderStore.initial; selectedTable := None;
         existingOrders := []; isLoading := true;
         isGeneratingKOT := false; kotNumber := EmptyString; log := [];
         browser := {| hasToken := hasToken (browser s); pathname := path;
                       toasts := []; href := None |} |}
  | None => s
  end.

End OrderPage.

(* ================================================================== *)
(** ** The captain dashboard (src/unnamed/part_002)                    *)
(* ================================================================== *)

Module Dashboard.
Import JS Types Client.
Local Open Scope string_scope.
Local Open Scope Z_scope.

Record State : Type := mkState {
  store : TableStore.State;
  browser : Browser
}.

Definition with_store (f : TableStore.State -> TableStore.State) (s : State)
  : State :=
  {| store := f (store s); browser := browser s |}.

Definition with_browser (b : Browser) (s : State) : State :=
  {| store := store s; browser := b |}.

Definition notify (t : toast) (s : State) : State :=
  with_browser (show t (browser s)) s.

(** [fetchTables]: the listing is stored only when the call returned. *)
Definition fetchTables (data : reply Payload.payload) (s : State) : State :=
  let s := with_store (TableStore.setLoading true) s in
  let '(r, b) := request data (browser s) in
  let s := with_browser b s in
  let s :=
    match r with
    | Returned d => with_store (TableStore.setTables d) s
    | Thrown => notify (ToastError "Failed to load tables") s
    end in
  with_store (TableStore.setLoading false) s.

(** The dashboard that the browser shows once the handler has returned; a
    new document starts from the initial table store. *)
Definition settle (s : State) : State :=
  match href (browser s) with
  | Some path =>
      {| store := TableStore.initial;
         browser := {| hasToken := hasToken (browser s); pathname := path;
                       toasts := []; href := None |} |}
  | None => s
  end.

End Dashboard.

(* ================================================================== *)
(** ** The table grid (src/components/captain/BillModal.tsx)           *)
(* ================================================================== *)

Module TableGrid.
Import JS Types.

(** [Map<number, Table>]: keys in order of first insertion. *)
Definition TableMap : Type := list (Z * Table).

Fixpoint map_get (k : Z) (m : TableMap) : option Table :=
  match m with
  | [] => None
  | (k', v) :: m' => if k' =? k then Some v else map_get k m'
  end.

(** [Map.prototype.set]: an existing key keeps its place. *)
Fixpoint map_set (k : Z) (v : Table) (m : TableMap) : TableMap :=
  match m with
  | [] => [(k, v)]
  | (k', v') :: m' =>
      if k' =? k then (k, v) :: m' else (k', v') :: map_set k v m'
  end.

(** The object stored for a table identifier that was already seen. *)
Definition merge (existingTable table : Table) : Table :=
  let existingAmount :=
    parseFloat_amount (or_zero (total_amount existingTable)) in
  let currentAmount := parseFloat_amount (or_zero (total_amount table)) in
  let summedAmount := add existingAmount currentAmount in
  {| table_id := table_id existingTable;
     table_number := table_number existingTable;
     table_block := table_block existingTable;
     seating_capacity := seating_capacity existingTable;
     status := match status table with
               | running => running
               | _ => status existingTable
               end;
     current_order_id :=
       or_id (current_order_id existingTable) (current_order_id table);
     order_number := or_str (order_number existingTable) (order_number table);
     last_occupied_at := last_occupied_at existingTable;
     total_amount := AStr (toFixed2 summedAmount) |}.

(** The body of [tableArray.forEach]. *)
Definition step (aggregatedTablesMap : TableMap) (table : Table) : TableMap :=
  match map_get (table_id table) aggregatedTablesMap with
  | Some existingTable =>
      map_set (table_id table) (merge existingTable table) aggregatedTablesMap
  | None => map_set (table_id table) table aggregatedTablesMap
  end.

(** The map after the loop; [tableArray] is the listing once the component
    has taken it out of its wrapper. *)
Definition aggregate (tableArray : list Table) : TableMap :=
  fold_left step tableArray [].

(** [Array.from(aggregatedTablesMap.values())] *)
Definition aggregated (tableArray : list Table) : list Table :=
  map snd (aggregate tableArray).

(** [groupedTables]: the own properties of the object, from block label to
    the tables of the block, in the order of the aggregated array. *)
Definition Groups : Type := list (string * list Table).

(** [acc[block]] on an own property. *)
Fixpoint group_get (b : string) (g : Groups) : option (list Table) :=
  match g with
  | [] => None
  | (b', ts) :: g' => if String.eqb b' b then Some ts else group_get b g'
  end.

(** [acc[block].push(table)] on an own property. *)
Fixpoint group_push (b : string) (table : Table) (g : Groups) : Groups :=
  match g with
  | [] => []
  | (b', ts) :: g' =>
      if String.eqb b' b then (b', ts ++ [table]) :: g'
      else (b', ts) :: group_push b table g'
  end.

(** The body of the [reduce]: [if (!acc[block]) acc[block] = [];
    acc[block].push(table)].  For a label that the object inherits,
    [acc[block]] is truthy from the start and has no [push]. *)
Definition push_group (acc : Groups) (table : Table) : result Groups :=
  let block := table_block table in
  match group_get block acc with
  | Some _ => Value (group_push block table acc)
  | None =>
      if inherited block then TypeError
      else Value (acc ++ [(block, [table])])
  end.

Definition groupedTables (tableArray : list Table) : result Groups :=
  fold_left (fun acc table =>
               match acc with
               | Value g => push_group g table
               | TypeError => TypeError
               end)
            tableArray (Value []).

(** [groupedTables[block]] for a key of the object. *)
Definition group_of (b : string) (g : Groups) : list Table :=
  match group_get b g with
  | Some ts => ts
  | None => []
  end.

(** [Object.keys(groupedTables).sort()]: by code unit. *)
Definition sortedBlocks (g : Groups) : list string :=
  sort_by code_unit_compare (map fst g).

Section Render.

(** [a.localeCompare(b)] without arguments: the default collation of the
    host. *)
Variable localeCompare : string -> string -> comparison.

(** [.sort((a, b) => a.table_number.localeCompare(b.table_number))] *)
Definition sort_block (ts : list Table) : list Table :=
  sort_by (fun a b => localeCompare (table_number a) (table_number b)) ts.

(** The blocks in display order, each with its cards in display order. *)
Definition groupByBlock (tableArray : list Table)
  : result (list (string * list Table)) :=
  match groupedTables tableArray with
  | Value g =>
      Value (map (fun block => (block, sort_block (group_of block g)))
                 (sortedBlocks g))
  | TypeError => TypeError
  end.

(** What is rendered for a listing: extract, aggregate, group. *)
Definition render (tables : Payload.payload)
  : result (list (string * list Table)) :=
  groupByBlock (aggregated (Payload.extract_grid tables)).

End Render.

End TableGrid.

(* ================================================================== *)
(** ** Sessions: sequences of cart operations                          *)
(* ================================================================== *)

Module Session.
Import JS Types.

(** An operation on the cart: an action of the store, or one of the two
    page handlers that are built from them. *)
Inductive action : Type :=
| AddItem (item : CartItem)
| RemoveItem (itemId : Z)
| UpdateQuantity (itemId quantity : Z)
| UpdateInstructions (itemId : Z) (instructions : string)
| ClearCart
| SetTableId (t : Z)
| HandleAddItem (menuItem : MenuItem)
| HandleUpdateSpicePreference (itemId : Z) (level : SpiceLevel).

Definition perform (a : action) (s : OrderStore.State) : OrderStore.State :=
  match a with
  | AddItem item => OrderStore.addItem item s
  | RemoveItem itemId => OrderStore.removeItem itemId s
  | UpdateQuantity itemId q => OrderStore.updateQuantity itemId q s
  | UpdateInstructions itemId t => OrderStore.updateInstructions itemId t s
  | ClearCart => OrderStore.clearCart s
  | SetTableId t => OrderStore.setTableId t s
  | HandleAddItem m => OrderPage.handleAddItem m s
  | HandleUpdateSpicePreference itemId l =>
      OrderPage.handleUpdateSpicePreference itemId l s
  end.

Definition run (acts : list action) (s : OrderStore.State)
  : OrderStore.State :=
  fold_left (fun st a => perform a st) acts s.





(** The cart invariant: a line per identifier, each of quantity 1 or more. *)
Definition well_formed (s : OrderStore.State) : Prop :=
  NoDup (map cart_id (OrderStore.items s)) /\
  Forall (fun l => 1 <= quantity l) (OrderStore.items s).

Definition positive_quantities (s : OrderStore.State) : Prop :=
  Forall (fun l => 1 <= quantity l) (OrderStore.items s).

End Session.

(* ================================================================== *)
(** ** Rows of one table                                               *)
(* ================================================================== *)

Module Rows.
Import JS Types.

(** The rows of a listing that carry the identifier [id], in order. *)
Definition rows_of (id : Z) (rows : list Table) : list Table :=
  filter (fun r => table_id r =? id) rows.

(** The amount of a row as the grid reads it:
    [parseFloat(row.total_amount || '0')]. *)
Definition amount_value (r : Table) : number :=
  parseFloat_amount (or_zero (total_amount r)).

(** The first row, merged with the following ones from left to right. *)
Definition merge_all (rs : list Table) : option Table :=
  match rs with
  | [] => None
  | r :: rs' => Some (fold_left TableGrid.merge rs' r)
  end.


(** The total of an entry after one more row: the sum of what the total
    reads as and what the amount of the row reads as, printed with two
    decimals. *)
Definition merge_total (total : amount) (row : Table) : amount :=
  AStr (toFixed2 (add (parseFloat_amount (or_zero total))
                      (amount_value row))).

(** The total of a table whose first row has the amount [first] and whose
    further rows are [rs]. *)
Definition running_total (rs : list Table) (first : amount) : amount :=
  fold_left merge_total rs first.

(** A total that is rounded once, when it is shown: the reading of the
    specification that the grid is compared with. *)
Definition rounded_at_display (rs : list Table) : string :=
  toFixed2 (fold_left (fun sum r => add sum (amount_value r)) rs zero).

(** An amount that is falsy: [a || '0'] is ['0']. *)
Definition missing (a : amount) : bool :=
  match a with
  | AUndefined | ANull => true
  | ANum S754_nan | ANum (S754_zero _) => true
  | AStr EmptyString => true
  | _ => false
  end.

Definition is_NaN (x : number) : bool :=
  match x with
  | S754_nan => true
  | _ => false
  end.

(** The sum of the amounts of rows that carry the whole amounts
    [units]. *)
Fixpoint whole_sum (units : Table -> Z) (rs : list Table) : Z :=
  match rs with
  | [] => 0
  | r :: rs' => units r + whole_sum units rs'
  end.

(** The rows carry the whole amounts [units]. *)
Definition whole_amounts (units : Table -> Z) (rs : list Table) : Prop :=
  forall r, In r rs -> 0 <= units r /\ amount_value r = of_Z (units r).


(** [a] is not after [b] in the order of the collation. *)
Definition number_le (collate : string -> string -> comparison)
  (a b : Table) : Prop :=
  collate (table_number a) (table_number b) <> Gt.

(** The tables of a listing that are in the block [b], in order. *)
Definition tables_of_block (b : string) (ts : list Table) : list Table :=
  filter (fun t => String.eqb (table_block t) b) ts.

End Rows.

(** Sample data used by the examples below. *)
Module Sample.
Import JS Types Client.
Local Open Scope string_scope.
Local Open Scope Z_scope.

Definition paneer : MenuItem :=
  {| item_id := 1; item_name := "Paneer Tikka"; price := of_Z 250;
     is_spicy := true; spice_level := Some spicy |}.

Definition lassi : MenuItem :=
  {| item_id := 2; item_name := "Lassi"; price := of_Z 100;
     is_spicy := false; spice_level := None |}.


(** A cart for table 5 with two portions of paneer and a note. *)
Definition cart5 : OrderStore.State :=
  {| OrderStore.items :=
       [ {| base := paneer; quantity := 2;
            special_instructions := Some "no onion";
            spice_preference := Some spicy |} ];
     OrderStore.tableId := Some 5 |}.




(** The order page of a captain who is logged in, on table 5. *)
Definition browser5 : Browser :=
  {| hasToken := true; pathname := "/captain/order/5"; toasts := [];
     href := None |}.

Definition page5 : OrderPage.State :=
  {| OrderPage.cart := cart5; OrderPage.selectedTable := None;
     OrderPage.existingOrders := []; OrderPage.isLoading := false;
     OrderPage.isGeneratingKOT := false; OrderPage.kotNumber := EmptyString;
     OrderPage.log := []; OrderPage.browser := browser5 |}.

(** The reply to a request whose token has expired. *)
Definition expired : failure :=
  Status 401 None "Request failed with status code 401".

(** The reply of a backend that is down. *)
Definition unavailable : failure :=
  Status 500 (Some {| data_message := Some "Database unavailable";
                      data_errors := [] |})
         "Request failed with status code 500".

(** A listing row of block A. *)
Definition row (id : Z) (number : string) (st : TableStatus)
  (order : option Z) (amt : amount) : Table :=
  {| table_id := id; table_number := number; table_block := "A";
     seating_capacity := 4; status := st; current_order_id := order;
     order_number := None; last_occupied_at := None; total_amount := amt |}.

(** Two rows of table 1 with amounts below a hundredth. *)
Definition mills2 : Table := row 1 "1" running (Some 7) (AStr "0.002").
Definition mills4 : Table := row 1 "1" running (Some 7) (AStr "0.004").

(** Two rows of table 1, the first with the order identifier 0. *)
Definition order0 : Table := row 1 "1" billed (Some 0) (AStr "100.00").
Definition order9 : Table := row 1 "1" billed (Some 9) (AStr "50.00").

(** Two rows of table 1 with the amounts of the specification. *)
Definition r250 : Table := row 1 "1" running (Some 7) (AStr "250.00").
Definition r180 : Table := row 1 "1" empty (Some 9) (AStr "180.50").


(** Rows of table 1 without an amount, and with one that is no number. *)
Definition blank : Table := row 1 "1" billed (Some 7) ANull.
Definition garbled : Table := row 1 "1" billed (Some 7) (AStr "abc").
Definition r100 : Table := row 1 "1" billed (Some 7) (AStr "100.00").

(** The whole amount of a row of the samples. *)
Definition units (r : Table) : Z :=
  match total_amount r with
  | AStr "250.00" => 250
  | AStr "100.00" => 100
  | AStr "50.00" => 50
  | _ => 0
  end.

(** Three tables of block A, numbered 2, 10 and 1. *)
Definition numbered : list Table :=
  [ row 1 "2" empty None ANull;
    row 2 "10" empty None ANull;
    row 3 "1" empty None ANull ].

(** The dashboard of a captain who is logged in, with a listing. *)
Definition dashboard : Dashboard.State :=
  {| Dashboard.store :=
       {| TableStore.tables := Payload.Array numbered;
          TableStore.selectedTable := None;
          TableStore.isLoading := false |};
     Dashboard.browser :=
       {| hasToken := true; pathname := "/captain"; toasts := [];
          href := None |} |}.

End Sample.
(* ================================================================== *)
(** * Proofs                                                           *)
(* ================================================================== *)

(** ** Binary64 arithmetic *)

Section Binary64.
Import JS.


(** Adding the zero of a missing amount: the other operand, or [+0]. *)
Lemma add_zero_r (x : number) :
  add x zero = match x with S754_zero _ => zero | _ => x end.
Proof. destruct x as [[|] | [|] | | s m e]; reflexivity. Qed.

Lemma add_NaN_l (x : number) : add NaN x = NaN.
Proof. reflexivity. Qed.

Lemma add_NaN_r (x : number) : add x NaN = NaN.
Proof. destruct x as [s | s | | s m e]; reflexivity. Qed.

(** *** Binary digits *)

Lemma digits2_pos_bounds (p : positive) :
  2 ^ (Zpos (digits2_pos p) - 1) <= Zpos p < 2 ^ Zpos (digits2_pos p).
Proof.
  induction p as [p IH | p IH |]; cbn [digits2_pos].
  - rewrite Pos2Z.inj_succ.
    replace (Z.succ (Zpos (digits2_pos p)) - 1)
      with (Z.succ (Zpos (digits2_pos p) - 1)) by lia.
    rewrite !Z.pow_succ_r by lia. lia.
  - rewrite Pos2Z.inj_succ.
    replace (Z.succ (Zpos (digits2_pos p)) - 1)
      with (Z.succ (Zpos (digits2_pos p) - 1)) by lia.
    rewrite !Z.pow_succ_r by lia. lia.
  - cbn. lia.
Qed.

Lemma Zdigits2_bounds (n : Z) :
  0 < n -> 2 ^ (Zdigits2 n - 1) <= n < 2 ^ Zdigits2 n.
Proof.
  destruct n as [| p | p]; try lia. intros _. apply digits2_pos_bounds.
Qed.

Lemma Zdigits2_pos (n : Z) : 0 < n -> 1 <= Zdigits2 n.
Proof. destruct n; simpl; lia. Qed.

Lemma Zdigits2_unique (n d : Z) :
  0 < n -> 2 ^ (d - 1) <= n < 2 ^ d -> Zdigits2 n = d.
Proof.
  intros Hn [Hlo Hhi].
  pose proof (Zdigits2_bounds n Hn) as [Hlo' Hhi'].
  pose proof (Zdigits2_pos n Hn) as Hd.
  assert (Hd1 : 1 <= d).
  { destruct (Z_lt_le_dec d 1) as [Hlt | Hge]; [| exact Hge].
    assert (2 ^ d <= 2 ^ 0).
    { destruct (Z_lt_le_dec d 0) as [Hneg | Hnn].
      - rewrite Z.pow_neg_r by lia. cbn. lia.
      - apply Z.pow_le_mono_r; lia. }
    cbn in *. lia. }
  destruct (Z.lt_trichotomy (Zdigits2 n) d) as [Hlt | [Heq | Hgt]];
    [| exact Heq |].
  - assert (2 ^ Zdigits2 n <= 2 ^ (d - 1))
      by (apply Z.pow_le_mono_r; lia). lia.
  - assert (2 ^ d <= 2 ^ (Zdigits2 n - 1))
      by (apply Z.pow_le_mono_r; lia). lia.
Qed.

(** The digits of a multiple by a power of two. *)
Lemma Zdigits2_shift (n k : Z) :
  0 < n -> 0 <= k -> Zdigits2 (n * 2 ^ k) = Zdigits2 n + k.
Proof.
  intros Hn Hk.
  pose proof (Zdigits2_bounds n Hn) as [Hlo Hhi].
  pose proof (Zdigits2_pos n Hn) as Hd.
  assert (Hp : 0 < 2 ^ k) by (apply Z.pow_pos_nonneg; lia).
  apply Zdigits2_unique; [nia |].
  replace (Zdigits2 n + k - 1) with ((Zdigits2 n - 1) + k) by lia.
  rewrite !Z.pow_add_r by lia. nia.
Qed.

Lemma fexp_normal (d : Z) : -1021 <= d -> fexp prec emax d = d - 53.
Proof. unfold fexp, emin, prec, emax. lia. Qed.

(** *** Shifts *)

Lemma pos_iter_xO (m d : positive) :
  Zpos (Pos.iter xO m d) = Zpos m * 2 ^ Zpos d.
Proof.
  induction d as [| d IH] using Pos.peano_ind.
  - cbn. lia.
  - rewrite Pos.iter_succ, Pos2Z.inj_succ, Z.pow_succ_r by lia.
    rewrite Pos2Z.inj_xO, IH. lia.
Qed.

Lemma iter_pos_shr_1 (p m : positive) :
  iter_pos shr_1 p
    {| shr_m := Zpos (Pos.iter xO m p); shr_r := false; shr_s := false |}
  = {| shr_m := Zpos m; shr_r := false; shr_s := false |}.
Proof.
  revert m.
  induction p as [p IH | p IH |]; intro m; cbn [iter_pos Pos.iter].
  - cbn [shr_1 orb]. rewrite IH. apply IH.
  - rewrite IH. apply IH.
  - reflexivity.
Qed.

(** Shifting out zeros only. *)
Lemma shr_exact (m m' : positive) (e n : Z) :
  0 <= n -> Zpos m = Zpos m' * 2 ^ n ->
  shr {| shr_m := Zpos m; shr_r := false; shr_s := false |} e n
  = ({| shr_m := Zpos m'; shr_r := false; shr_s := false |}, e + n).
Proof.
  intros Hn Hm. destruct n as [| p | p]; [| | lia].
  - cbn [shr]. rewrite Z.pow_0_r, Z.mul_1_r in Hm.
    inversion Hm; subst. rewrite Z.add_0_r. reflexivity.
  - cbn [shr]. rewrite <- pos_iter_xO in Hm. inversion Hm as [Hm'].
    rewrite iter_pos_shr_1. reflexivity.
Qed.

(** *** Whole numbers below 2^53 *)

(** Rounding a whole number below 2^53 that is given with trailing zero
    bits changes nothing. *)
Lemma round_whole (s : bool) (m : positive) (e n : Z) :
  0 < n < 2 ^ 53 -> e <= Zdigits2 n - 53 -> Zpos m = n * 2 ^ (- e) ->
  binary_round_aux prec emax s (Zpos m) e loc_Exact = whole s n.
Proof.
  intros [Hn Hlt] He Hm.
  pose proof (Zdigits2_bounds n Hn) as [Hlo Hhi].
  pose proof (Zdigits2_pos n Hn) as Hd1.
  set (d := Zdigits2 n) in *.
  assert (Hd53 : d <= 53).
  { destruct (Z_lt_le_dec 53 d) as [Hgt | Hle]; [| exact Hle].
    assert (2 ^ 53 <= 2 ^ (d - 1)) by (apply Z.pow_le_mono_r; lia). lia. }
  set (m' := Z.to_pos (n * 2 ^ (53 - d))).
  assert (Hm' : Zpos m' = n * 2 ^ (53 - d)).
  { unfold m'. rewrite Z2Pos.id; [reflexivity |].
    assert (0 < 2 ^ (53 - d)) by (apply Z.pow_pos_nonneg; lia). nia. }
  assert (Hdm : Zdigits2 (Zpos m) = d - e).
  { rewrite Hm, Zdigits2_shift by lia. fold d. lia. }
  assert (Hdm' : Zdigits2 (Zpos m') = 53).
  { rewrite Hm', Zdigits2_shift by lia. fold d. lia. }
  assert (Hsplit : Zpos m = Zpos m' * 2 ^ (d - 53 - e)).
  { rewrite Hm, Hm', <- Z.mul_assoc, <- Z.pow_add_r by lia.
    f_equal. f_equal. lia. }
  unfold whole, binary_round_aux, shr_fexp. fold d. fold m'.
  cbn [shr_record_of_loc].
  rewrite Hdm.
  replace (d - e + e) with d by lia.
  rewrite (fexp_normal d) by lia.
  rewrite (shr_exact m m' e (d - 53 - e)) by (lia || exact Hsplit).
  cbn [shr_m loc_of_shr_record round_nearest_even shr_record_of_loc].
  rewrite Hdm'.
  replace (e + (d - 53 - e)) with (d - 53) by lia.
  replace (53 + (d - 53)) with d by lia.
  rewrite (fexp_normal d) by lia.
  replace (d - 53 - (d - 53)) with 0 by lia.
  cbn [shr shr_m].
  replace (d - 53 <=? emax - prec) with true
    by (symmetry; apply Z.leb_le; unfold emax, prec; lia).
  reflexivity.
Qed.

(** The same from the start: [binary_round] first aligns the mantissa. *)
Lemma normalize_whole (s : bool) (m : positive) (e n : Z) :
  0 < n < 2 ^ 53 -> e <= 0 -> Zpos m = n * 2 ^ (- e) ->
  binary_round prec emax s m e = whole s n.
Proof.
  intros [Hn Hlt] He Hm.
  pose proof (Zdigits2_pos n Hn) as Hd1.
  assert (Hdm : Zpos (digits2_pos m) = Zdigits2 n - e).
  { change (Zpos (digits2_pos m)) with (Zdigits2 (Zpos m)).
    rewrite Hm, Zdigits2_shift by lia. lia. }
  unfold binary_round. rewrite Hdm.
  replace (Zdigits2 n - e + e) with (Zdigits2 n) by lia.
  rewrite fexp_normal by lia.
  unfold shl_align.
  destruct (Zdigits2 n - 53 - e) as [| p | p] eqn:Hsh.
  - apply round_whole; [lia | lia | exact Hm].
  - apply round_whole; [lia | lia | exact Hm].
  - apply round_whole; [lia | lia |].
    rewrite pos_iter_xO, Hm, <- Z.mul_assoc, <- Z.pow_add_r by lia.
    f_equal. f_equal. lia.
Qed.

Lemma of_Z_whole (n : Z) : 0 < n < 2 ^ 53 -> of_Z n = whole false n.
Proof.
  intros Hn. destruct n as [| p | p]; try lia.
  unfold of_Z, binary_normalize.
  apply normalize_whole; [exact Hn | lia |].
  cbn. lia.
Qed.


Lemma whole_digits (n : Z) : 0 < n < 2 ^ 53 -> 1 <= Zdigits2 n <= 53.
Proof.
  intros [Hn Hlt].
  pose proof (Zdigits2_bounds n Hn) as [Hlo Hhi].
  pose proof (Zdigits2_pos n Hn) as Hd1.
  split; [exact Hd1 |].
  destruct (Z_lt_le_dec 53 (Zdigits2 n)) as [Hgt | Hle]; [| exact Hle].
  assert (2 ^ 53 <= 2 ^ (Zdigits2 n - 1))
    by (apply Z.pow_le_mono_r; lia). lia.
Qed.

Lemma whole_mantissa (n : Z) :
  0 < n < 2 ^ 53 ->
  Zpos (Z.to_pos (n * 2 ^ (53 - Zdigits2 n))) = n * 2 ^ (53 - Zdigits2 n).
Proof.
  intros Hn. pose proof (whole_digits n Hn) as Hd.
  rewrite Z2Pos.id; [reflexivity |].
  assert (0 < 2 ^ (53 - Zdigits2 n)) by (apply Z.pow_pos_nonneg; lia). nia.
Qed.

Lemma shl_align_fst (mx : positive) (ex ez : Z) :
  ez <= ex -> Zpos (fst (shl_align mx ex ez)) = Zpos mx * 2 ^ (ex - ez).
Proof.
  intros Hle. unfold shl_align.
  destruct (ez - ex) as [| p | p] eqn:Hd; cbn [fst].
  - replace (ex - ez) with 0 by lia. rewrite Z.pow_0_r. lia.
  - lia.
  - rewrite pos_iter_xO. f_equal. f_equal. lia.
Qed.

(** Whole numbers add and multiply without error below 2^53. *)
Lemma add_whole (a b : Z) :
  0 < a -> 0 < b -> a + b < 2 ^ 53 ->
  add (whole false a) (whole false b) = whole false (a + b).
Proof.
  intros Ha Hb Hab.
  assert (Ha' : 0 < a < 2 ^ 53) by lia.
  assert (Hb' : 0 < b < 2 ^ 53) by lia.
  pose proof (whole_digits a Ha') as Hda.
  pose proof (whole_digits b Hb') as Hdb.
  pose proof (whole_mantissa a Ha') as Hma.
  pose proof (whole_mantissa b Hb') as Hmb.
  unfold add, whole, SFadd.
  set (ma := Z.to_pos (a * 2 ^ (53 - Zdigits2 a))) in *.
  set (mb := Z.to_pos (b * 2 ^ (53 - Zdigits2 b))) in *.
  set (ea := Zdigits2 a - 53). set (eb := Zdigits2 b - 53).
  set (ez := Z.min ea eb).
  assert (Hza : ez <= ea) by (unfold ez; lia).
  assert (Hzb : ez <= eb) by (unfold ez; lia).
  pose proof (shl_align_fst ma ea ez Hza) as Hsa.
  pose proof (shl_align_fst mb eb ez Hzb) as Hsb.
  cbn [cond_Zopp Z.add binary_normalize].
  apply normalize_whole; [lia | unfold ez, ea; lia |].
  rewrite Pos2Z.inj_add, Hsa, Hsb, Hma, Hmb.
  rewrite Z.mul_add_distr_r.
  rewrite <- !Z.mul_assoc, <- !Z.pow_add_r by (unfold ea, eb in *; lia).
  f_equal; f_equal; f_equal; unfold ea, eb; lia.
Qed.


Lemma of_Z_add (a b : Z) :
  0 <= a -> 0 <= b -> a + b < 2 ^ 53 ->
  add (of_Z a) (of_Z b) = of_Z (a + b).
Proof.
  intros Ha Hb Hab.
  destruct (Z.eq_dec a 0) as [-> | Hna];
    [| destruct (Z.eq_dec b 0) as [-> | Hnb]].
  - rewrite Z.add_0_l. destruct (Z.eq_dec b 0) as [-> | Hnb];
      [reflexivity |].
    rewrite (of_Z_whole b) by lia. reflexivity.
  - rewrite Z.add_0_r, (of_Z_whole a) by lia. reflexivity.
  - rewrite (of_Z_whole a), (of_Z_whole b), (of_Z_whole (a + b)) by lia.
    apply add_whole; lia.
Qed.


End Binary64.

(* ================================================================== *)
(** ** Printing with two decimals and reading back                     *)
(* ================================================================== *)

Section PrintParse.
Import JS.

Ltac digit_cases d :=
  assert (d = 0 \/ d = 1 \/ d = 2 \/ d = 3 \/ d = 4 \/
          d = 5 \/ d = 6 \/ d = 7 \/ d = 8 \/ d = 9) as Hcases by lia;
  repeat (destruct Hcases as [-> | Hcases]); [.. | subst d].

Lemma digit_of_digit_char (d : Z) :
  0 <= d <= 9 -> digit_of (digit_char d) = Some d.
Proof. intro H. digit_cases d; reflexivity. Qed.

Lemma digits_fuel_app (f : nat) (n : Z) (acc r : string) :
  (digits_fuel f n acc ++ r)%string = digits_fuel f n (acc ++ r)%string.
Proof.
  revert n acc. induction f as [| f IH]; intros n acc; simpl.
  - reflexivity.
  - destruct (n <? 10); [reflexivity | apply IH].
Qed.

Lemma scan_digits_fuel (f : nat) (n : Z) (acc : string) :
  0 <= n < 2 ^ Z.of_nat f ->
  exists k : Z,
    0 <= k /\ (0 < n -> 0 < k) /\ (f <> O -> 0 < k) /\
    forall c : Z,
      scan_digits (digits_fuel f n acc) 0 c = scan_digits acc n (c + k).
Proof.
  revert n acc. induction f as [| f IH]; intros n acc Hn.
  - exists 0. simpl in *. assert (n = 0) as -> by lia.
    repeat split; try lia. intro c. now rewrite Z.add_0_r.
  - simpl digits_fuel. destruct (Z.ltb_spec n 10) as [Hlt | Hge].
    + exists 1. repeat split; try lia. intro c. simpl.
      rewrite Z.mod_small by lia.
      rewrite digit_of_digit_char by lia. reflexivity.
    + assert (Hdiv : 0 <= n / 10 < 2 ^ Z.of_nat f).
      { rewrite Nat2Z.inj_succ, Z.pow_succ_r in Hn by lia.
        split; [apply Z.div_pos; lia |].
        apply Z.div_lt_upper_bound; lia. }
      destruct (IH (n / 10) (String (digit_char (n mod 10)) acc) Hdiv)
        as (k & Hk & _ & _ & Hscan).
      exists (k + 1). repeat split; try lia. intro c.
      rewrite Hscan. simpl.
      pose proof (Z.mod_pos_bound n 10 ltac:(lia)) as Hm.
      rewrite digit_of_digit_char by lia.
      f_equal; [| lia].
      pose proof (Z.div_mod n 10 ltac:(lia)). lia.
Qed.

Lemma scan_digits_nonneg (n : Z) (r : string) :
  0 <= n ->
  exists k : Z,
    0 < k /\
    forall c : Z,
      scan_digits (string_of_nonneg n ++ String "." r) 0 c
      = (n, c + k, String "." r).
Proof.
  intro Hn. unfold string_of_nonneg. rewrite digits_fuel_app. simpl append.
  destruct (scan_digits_fuel (S (Z.to_nat (Z.log2 n))) n (String "." r))
    as (k & _ & _ & Hk & Hscan).
  - split; [assumption |].
    rewrite Nat2Z.inj_succ, Z2Nat.id by apply Z.log2_nonneg.
    destruct (Z.eq_dec n 0) as [-> | Hnz]; [reflexivity |].
    apply Z.log2_spec. lia.
  - exists k. split; [now apply Hk |]. intro c. rewrite Hscan. reflexivity.
Qed.

Lemma digits_fuel_head (f : nat) (n : Z) (acc : string) :
  0 <= n ->
  exists (d : Z) (r : string),
    0 <= d <= 9 /\ digits_fuel (S f) n acc = String (digit_char d) r.
Proof.
  revert n acc. induction f as [| f IH]; intros n acc Hn.
  - exists (n mod 10), acc.
    pose proof (Z.mod_pos_bound n 10 ltac:(lia)) as Hm.
    split; [lia |]. simpl. destruct (n <? 10); reflexivity.
  - change (digits_fuel (S (S f)) n acc)
      with (if n <? 10 then String (digit_char (n mod 10)) acc
            else digits_fuel (S f) (n / 10)
                             (String (digit_char (n mod 10)) acc)).
    destruct (n <? 10).
    + exists (n mod 10), acc.
      pose proof (Z.mod_pos_bound n 10 ltac:(lia)) as Hm.
      split; [lia | reflexivity].
    + apply IH. apply Z.div_pos; lia.
Qed.

Lemma fixed2_head (n : Z) :
  0 <= n ->
  exists (d : Z) (r : string),
    0 <= d <= 9 /\ fixed2 n = String (digit_char d) r.
Proof.
  intro Hn. unfold fixed2, string_of_nonneg.
  destruct (digits_fuel_head (Z.to_nat (Z.log2 (n / 100))) (n / 100)
                             EmptyString) as (d & r & Hd & Heq).
  - apply Z.div_pos; lia.
  - rewrite Heq. simpl. eauto.
Qed.

Lemma scan_unsigned_fixed2 (n : Z) :
  0 <= n -> scan_unsigned (fixed2 n) = Some (n, -2).
Proof.
  intro Hn. unfold scan_unsigned, fixed2.
  destruct (scan_digits_nonneg (n / 100)
              (String (digit_char (n mod 100 / 10))
                      (String (digit_char (n mod 10)) EmptyString)))
    as (k & Hk & Hscan).
  - apply Z.div_pos; lia.
  - rewrite Hscan. simpl Z.add.
    destruct (Z.ltb_spec 0 k); [| lia].
    simpl scan_digits.
    assert (H1 : 0 <= n mod 100 / 10 <= 9).
    { pose proof (Z.mod_pos_bound n 100 ltac:(lia)).
      split; [apply Z.div_pos; lia |].
      apply Z.lt_succ_r. apply Z.div_lt_upper_bound; lia. }
    assert (H2 : 0 <= n mod 10 <= 9).
    { pose proof (Z.mod_pos_bound n 10 ltac:(lia)). lia. }
    rewrite (digit_of_digit_char _ H1), (digit_of_digit_char _ H2).
    simpl. f_equal. f_equal.
    pose proof (Z.div_mod n 100 ltac:(lia)).
    pose proof (Z.div_mod (n mod 100) 10 ltac:(lia)).
    assert (Hmm : (n mod 100) mod 10 = n mod 10).
    { apply Z.mod_mod_divide. exists 10. reflexivity. }
    lia.
Qed.

Lemma parse_unsigned_fixed2 (n : Z) :
  0 <= n -> parse_unsigned (fixed2 n) = dec n (-2).
Proof.
  intro Hn. unfold parse_unsigned.
  rewrite scan_unsigned_fixed2 by assumption.
  destruct (fixed2_head n Hn) as (d & r & Hd & ->).
  digit_cases d; reflexivity.
Qed.

(** What [toFixed(2)] prints below 10^21 reads back as the number value of
    the decimal. *)
Lemma parseFloat_fixed2 (n : Z) :
  0 <= n -> parseFloat (fixed2 n) = dec n (-2).
Proof.
  intro Hn. rewrite <- (parse_unsigned_fixed2 n Hn).
  destruct (fixed2_head n Hn) as (d & r & Hd & ->).
  digit_cases d; reflexivity.
Qed.

Lemma fixed2_nonempty (n : Z) : 0 <= n -> fixed2 n <> EmptyString.
Proof.
  intros Hn Heq. destruct (fixed2_head n Hn) as (d & r & _ & H).
  rewrite H in Heq. discriminate.
Qed.

Lemma or_zero_fixed2 (n : Z) :
  0 <= n -> or_zero (AStr (fixed2 n)) = AStr (fixed2 n).
Proof.
  intro Hn. destruct (fixed2_head n Hn) as (d & r & _ & ->). reflexivity.
Qed.

(** *** Whole amounts *)

(** A whole number below 2^53 prints with two zeros. *)
Lemma toFixed2_of_Z (n : Z) :
  0 <= n < 2 ^ 53 -> toFixed2 (of_Z n) = fixed2 (100 * n).
Proof.
  intros [Hn Hlt]. destruct (Z.eq_dec n 0) as [-> | Hnz]; [reflexivity |].
  assert (Hn' : 0 < n < 2 ^ 53) by lia.
  rewrite of_Z_whole by exact Hn'.
  pose proof (whole_digits n Hn') as Hd.
  pose proof (whole_mantissa n Hn') as Hm.
  unfold whole, toFixed2, at_least_1e21, hundredths, fraction.
  set (m := Z.to_pos (n * 2 ^ (53 - Zdigits2 n))) in *.
  assert (Hq : 0 < 2 ^ (53 - Zdigits2 n)) by (apply Z.pow_pos_nonneg; lia).
  assert (H53 : 2 ^ 53 < 10 ^ 21) by (vm_compute; reflexivity).
  destruct (Z.leb_spec 0 (Zdigits2 n - 53)) as [He | He].
  - assert (Hmn : Zpos m = n).
    { rewrite Hm. replace (53 - Zdigits2 n) with 0 by lia.
      rewrite Z.pow_0_r. lia. }
    replace (Zdigits2 n - 53) with 0 by lia.
    rewrite Z.pow_0_r, !Z.mul_1_r, Hmn.
    destruct (Z.leb_spec (10 ^ 21) n) as [Hbig | _]; [lia |].
    f_equal. replace (200 * n + 1) with (1 + (100 * n) * 2) by lia.
    rewrite Z.div_add by lia. change (1 / 2) with 0. lia.
  - replace (- (Zdigits2 n - 53)) with (53 - Zdigits2 n) by lia.
    rewrite Hm.
    destruct (Z.leb_spec (10 ^ 21 * 2 ^ (53 - Zdigits2 n))
                         (n * 2 ^ (53 - Zdigits2 n))) as [Hbig | _];
      [nia |].
    f_equal.
    replace (200 * (n * 2 ^ (53 - Zdigits2 n)) + 2 ^ (53 - Zdigits2 n))
      with (2 ^ (53 - Zdigits2 n) + (100 * n) * (2 * 2 ^ (53 - Zdigits2 n)))
      by ring.
    rewrite Z.div_add by lia.
    rewrite Z.div_small by lia. lia.
Qed.

(** The decimal [n.00] is the whole number [n]. *)
Lemma dec_whole (n : Z) :
  0 <= n < 2 ^ 53 -> dec (100 * n) (-2) = of_Z n.
Proof.
  intros [Hn Hlt]. destruct (Z.eq_dec n 0) as [-> | Hnz]; [reflexivity |].
  assert (Hn' : 0 < n < 2 ^ 53) by lia.
  rewrite of_Z_whole by exact Hn'.
  pose proof (whole_digits n Hn') as Hd.
  unfold dec.
  replace (0 <=? -2) with false by reflexivity.
  replace (100 * n =? 0) with false by (symmetry; apply Z.eqb_neq; lia).
  change (10 ^ (- -2)) with 100.
  unfold nearest, SFdiv_core_binary.
  change (Zdigits2 100) with 7.
  assert (H100 : 0 < 100 * n) by lia.
  pose proof (Zdigits2_bounds (100 * n) H100) as [Hlo Hhi].
  pose proof (Zdigits2_bounds n (proj1 Hn')) as [Hlon Hhin].
  pose proof (Zdigits2_pos (100 * n) H100) as Hd1pos.
  set (d1 := Zdigits2 (100 * n)) in *.
  assert (Hd1 : Zdigits2 n + 6 <= d1 <= Zdigits2 n + 7).
  { assert (Hpn : 0 < 2 ^ (Zdigits2 n - 1)) by (apply Z.pow_pos_nonneg; lia).
    split.
    - assert (Hp : 2 ^ (Zdigits2 n - 1 + 6) < 2 ^ d1).
      { rewrite Z.pow_add_r by lia. change (2 ^ 6) with 64. nia. }
      apply Z.pow_lt_mono_r_iff in Hp; lia.
    - assert (Hp : 2 ^ (d1 - 1) < 2 ^ (Zdigits2 n + 7)).
      { rewrite Z.pow_add_r by lia. change (2 ^ 7) with 128. nia. }
      apply Z.pow_lt_mono_r_iff in Hp; lia. }
  replace (d1 + 0 - (7 + 0)) with (d1 - 7) by lia.
  rewrite fexp_normal by lia.
  replace (Z.min (d1 - 7 - 53) (0 - 0)) with (d1 - 60) by lia.
  replace (0 - 0 - (d1 - 60)) with (60 - d1) by lia.
  assert (Hs : 0 <= 60 - d1) by lia.
  assert (Hpow : 0 < 2 ^ (60 - d1)) by (apply Z.pow_pos_nonneg; lia).
  assert (Hm' : match 60 - d1 with
                | 0 => 100 * n
                | Z.pos _ => Z.shiftl (100 * n) (60 - d1)
                | Z.neg _ => 0
                end = 100 * (n * 2 ^ (60 - d1))).
  { destruct (60 - d1) as [| p | p] eqn:Hsd; [| | lia].
    - rewrite Z.pow_0_r. lia.
    - rewrite Z.shiftl_mul_pow2 by lia. ring. }
  rewrite Hm'.
  pose proof (Z_div_mod (100 * (n * 2 ^ (60 - d1))) 100 ltac:(lia)) as Hdm.
  destruct (Z.div_eucl (100 * (n * 2 ^ (60 - d1))) 100) as [q r].
  destruct Hdm as [Heq Hr].
  assert (r = 0) as -> by lia.
  assert (Hq : q = n * 2 ^ (60 - d1)) by lia.
  change (new_location 100 0) with loc_Exact.
  assert (Hqpos : 0 < q) by nia.
  destruct q as [| qp | qp]; try lia.
  apply round_whole; [exact Hn' | lia |].
  rewrite Hq. f_equal. f_equal. lia.
Qed.

(** A whole amount survives being printed and read back. *)
Lemma parseFloat_toFixed2_of_Z (n : Z) :
  0 <= n < 2 ^ 53 -> parseFloat (toFixed2 (of_Z n)) = of_Z n.
Proof.
  intro Hn. rewrite toFixed2_of_Z by exact Hn.
  rewrite parseFloat_fixed2 by lia. apply dec_whole. exact Hn.
Qed.

End PrintParse.

(* ================================================================== *)
(** ** The cart                                                        *)
(* ================================================================== *)

Section Cart.
Import JS Types OrderStore Session.

(** *** The subtotal *)





(** *** Lines and identifiers *)

Lemma find_none_absent (id : Z) (ls : list CartItem) :
  find (fun i => cart_id i =? id) ls = None <-> ~ In id (map cart_id ls).
Proof.
  induction ls as [| l ls IH]; simpl.
  - tauto.
  - destruct (Z.eqb_spec (cart_id l) id) as [e | n].
    + split; [discriminate | intro H; exfalso; apply H; now left].
    + rewrite IH. tauto.
Qed.

Lemma find_some_present (id : Z) (ls : list CartItem) (l : CartItem) :
  find (fun i => cart_id i =? id) ls = Some l ->
  In l ls /\ cart_id l = id.
Proof.
  intro H. apply find_some in H. destruct H as [Hin Heq].
  split; [assumption | now apply Z.eqb_eq].
Qed.

Lemma map_absent_id (id : Z) (f : CartItem -> CartItem) (ls : list CartItem) :
  ~ In id (map cart_id ls) ->
  map (fun i => if cart_id i =? id then f i else i) ls = ls.
Proof.
  induction ls as [| l ls IH]; simpl; intro H; [reflexivity |].
  destruct (Z.eqb_spec (cart_id l) id) as [e | n].
  - exfalso. apply H. now left.
  - f_equal. apply IH. tauto.
Qed.

Lemma filter_absent_id (id : Z) (ls : list CartItem) :
  ~ In id (map cart_id ls) ->
  filter (fun i => negb (cart_id i =? id)) ls = ls.
Proof.
  induction ls as [| l ls IH]; simpl; intro H; [reflexivity |].
  destruct (Z.eqb_spec (cart_id l) id) as [e | n]; simpl.
  - exfalso. apply H. now left.
  - f_equal. apply IH. tauto.
Qed.

Lemma filter_removes_id (id : Z) (ls : list CartItem) :
  ~ In id (map cart_id (filter (fun i => negb (cart_id i =? id)) ls)).
Proof.
  rewrite in_map_iff. intros [l [Hid Hin]].
  apply filter_In in Hin. destruct Hin as [_ Hne].
  rewrite <- Hid, Z.eqb_refl in Hne. discriminate.
Qed.

(** *** The quantity invariant *)

Lemma addItem_positive (item : CartItem) (s : State) :
  positive_quantities s -> positive_quantities (addItem item s).
Proof.
  unfold positive_quantities, addItem. intro H.
  destruct (find _ (items s)); simpl.
  - apply Forall_map. eapply Forall_impl; [| exact H].
    intros l Hl. cbv beta in *.
    destruct (cart_id l =? cart_id item); simpl; lia.
  - apply Forall_app. split; [assumption |].
    constructor; [simpl; lia | constructor].
Qed.

Lemma removeItem_positive (id : Z) (s : State) :
  positive_quantities s -> positive_quantities (removeItem id s).
Proof.
  unfold positive_quantities, removeItem. simpl. intro H.
  rewrite Forall_forall in *. intros l Hl.
  apply filter_In in Hl. now apply H.
Qed.

Lemma updateQuantity_positive (id q : Z) (s : State) :
  positive_quantities s -> positive_quantities (updateQuantity id q s).
Proof.
  unfold positive_quantities, updateQuantity. intro H.
  destruct (Z.leb_spec q 0); simpl.
  - rewrite Forall_forall in *. intros l Hl.
    apply filter_In in Hl. now apply H.
  - apply Forall_map. eapply Forall_impl; [| exact H].
    intros l Hl. cbv beta in *. destruct (cart_id l =? id); simpl; lia.
Qed.

Lemma updateInstructions_positive (id : Z) (t : string) (s : State) :
  positive_quantities s -> positive_quantities (updateInstructions id t s).
Proof.
  unfold positive_quantities, updateInstructions. simpl. intro H.
  apply Forall_map. eapply Forall_impl; [| exact H].
  intros l Hl. cbv beta in *. destruct (cart_id l =? id); simpl; lia.
Qed.

Lemma fold_addItem_positive (ls : list CartItem) (s : State) :
  positive_quantities s ->
  positive_quantities (fold_left (fun st item => addItem item st) ls s).
Proof.
  revert s. induction ls as [| l ls IH]; intros s H; simpl.
  - assumption.
  - apply IH. now apply addItem_positive.
Qed.

Lemma perform_positive (a : action) (s : State) :
  positive_quantities s -> positive_quantities (perform a s).
Proof.
  intro H. destruct a; simpl.
  - now apply addItem_positive.
  - now apply removeItem_positive.
  - now apply updateQuantity_positive.
  - now apply updateInstructions_positive.
  - constructor.
  - exact H.
  - unfold OrderPage.handleAddItem.
    destruct (find _ (items s)).
    + now apply updateQuantity_positive.
    + now apply addItem_positive.
  - unfold OrderPage.handleUpdateSpicePreference.
    apply fold_addItem_positive. constructor.
Qed.

Lemma run_positive (acts : list action) (s : State) :
  positive_quantities s -> positive_quantities (run acts s).
Proof.
  revert s. induction acts as [| a acts IH]; intros s H; simpl.
  - assumption.
  - apply IH. now apply perform_positive.
Qed.




(** C8. After every sequence of cart operations every line has a quantity
    of 1 or more; [updateQuantity] to a target of 0 or less removes the
    line and keeps the others; [updateQuantity] on an identifier that has
    no line leaves the cart as it is. *)
Theorem quantity_at_least_one :
  (forall acts : list action,
      Forall (fun l => 1 <= quantity l) (items (run acts initial))) /\
  (forall (s : State) (id q : Z),
      q <= 0 ->
      items (updateQuantity id q s)
      = filter (fun l => negb (cart_id l =? id)) (items s) /\
      ~ In id (map cart_id (items (updateQuantity id q s)))) /\
  (forall (s : State) (id q : Z),
      ~ In id (map cart_id (items s)) -> updateQuantity id q s = s).
Proof.
  split; [| split].
  - intro acts. apply (run_positive acts initial). constructor.
  - intros s id q Hq. unfold updateQuantity.
    destruct (Z.leb_spec q 0); [| lia]. simpl.
    split; [reflexivity | apply filter_removes_id].
  - intros s id q Habs. unfold updateQuantity. destruct s as [ls t]. simpl in *.
    destruct (q <=? 0).
    + now rewrite filter_absent_id.
    + now rewrite map_absent_id.
Qed.

Lemma quantity_at_least_one_witness :
  Forall (fun l => 1 <= quantity l)
         (items (run [HandleAddItem Sample.paneer; UpdateQuantity 1 3;
                      HandleAddItem Sample.lassi; RemoveItem 1]
                     initial)) /\
  items (updateQuantity 1 0 Sample.cart5) = [] /\
  updateQuantity 2 4 Sample.cart5 = Sample.cart5.
Proof.
  destruct quantity_at_least_one as (Hinv & Hzero & Habsent).
  split; [| split].
  - apply Hinv.
  - destruct (Hzero Sample.cart5 1 0) as [Hitems _]; [lia |].
    rewrite Hitems. reflexivity.
  - apply Habsent. simpl. intros [H | []]. discriminate H.
Defined.

End Cart.

(* ================================================================== *)
(** ** Adding items and changing the spice preference                  *)
(* ================================================================== *)


Section CartAdd.
Import JS Types OrderStore Session.

Lemma same_id_same_line (ls : list CartItem) (a b : CartItem) :
  NoDup (map cart_id ls) -> In a ls -> In b ls -> cart_id a = cart_id b ->
  a = b.
Proof.
  induction ls as [| l ls IH]; simpl; intros Hnd Ha Hb Hid; [contradiction |].
  inversion Hnd as [| x xs Hnotin Hnd']; subst.
  destruct Ha as [-> | Ha], Hb as [-> | Hb].
  - reflexivity.
  - exfalso. apply Hnotin. rewrite Hid. now apply in_map.
  - exfalso. apply Hnotin. rewrite <- Hid. now apply in_map.
  - now apply IH.
Qed.

Lemma handleAddItem_existing (m : MenuItem) (s : State) :
  well_formed s -> In (item_id m) (map cart_id (items s)) ->
  OrderPage.handleAddItem m s = addItem (OrderPage.cartItem_of m) s.
Proof.
  intros [Hnd Hpos] Hin. unfold OrderPage.handleAddItem, addItem.
  change (cart_id (OrderPage.cartItem_of m)) with (item_id m).
  destruct (find (fun i => cart_id i =? item_id m) (items s)) as [l |] eqn:Hf.
  - apply find_some_present in Hf. destruct Hf as [Hl Hid].
    unfold updateQuantity.
    rewrite Forall_forall in Hpos. pose proof (Hpos l Hl) as Hq.
    destruct (Z.leb_spec (quantity l + 1) 0); [lia |].
    f_equal. apply map_ext_in. intros l' Hl'.
    destruct (Z.eqb_spec (cart_id l') (item_id m)) as [e | n]; [| reflexivity].
    assert (l' = l) as -> by (apply (same_id_same_line (items s)); congruence).
    reflexivity.
  - apply find_none_absent in Hf. contradiction.
Qed.

(** C7. [addItem] of an item whose identifier has a line adds 1 to the
    quantity of that line and keeps the number of lines and every other
    line; otherwise it appends one line of quantity 1 with empty
    instructions.  The line that the page adds for a menu item has the
    default spice level of the item as its preference, and on a cart with a
    line for the item the page handler does what [addItem] does.  Adding an
    item twice to the empty cart gives one line of quantity 2. *)
Theorem add_item_increments_or_appends (s : State) (m : MenuItem) :
  (forall c : CartItem,
      In (cart_id c) (map cart_id (items s)) ->
      List.length (items (addItem c s)) = List.length (items s) /\
      forall (n : nat) (l : CartItem),
        nth_error (items s) n = Some l ->
        nth_error (items (addItem c s)) n
        = Some (if cart_id l =? cart_id c
                then {| base := base l; quantity := quantity l + 1;
                        special_instructions := special_instructions l;
                        spice_preference := spice_preference l |}
                else l)) /\
  (forall c : CartItem,
      ~ In (cart_id c) (map cart_id (items s)) ->
      items (addItem c s)
      = items s ++ [ {| base := base c; quantity := 1;
                        special_instructions := Some EmptyString;
                        spice_preference := spice_preference c |} ]) /\
  (well_formed s -> In (item_id m) (map cart_id (items s)) ->
   OrderPage.handleAddItem m s = addItem (OrderPage.cartItem_of m) s) /\
  (~ In (item_id m) (map cart_id (items s)) ->
   items (OrderPage.handleAddItem m s)
   = items s ++ [ {| base := m; quantity := 1;
                     special_instructions := Some EmptyString;
                     spice_preference := spice_level m |} ]) /\
  items (OrderPage.handleAddItem m (OrderPage.handleAddItem m initial))
  = [ {| base := m; quantity := 2;
         special_instructions := Some EmptyString;
         spice_preference := spice_level m |} ] /\
  items (addItem (OrderPage.cartItem_of m)
                 (addItem (OrderPage.cartItem_of m) initial))
  = [ {| base := m; quantity := 2;
         special_instructions := Some EmptyString;
         spice_preference := spice_level m |} ].
Proof.
  repeat split.
  - unfold addItem.
    destruct (find (fun i => cart_id i =? cart_id c) (items s)) eqn:Hf.
    + simpl. apply length_map.
    + apply find_none_absent in Hf. contradiction.
  - intros n l Hn. unfold addItem.
    destruct (find (fun i => cart_id i =? cart_id c) (items s)) eqn:Hf.
    + simpl. rewrite nth_error_map, Hn. reflexivity.
    + apply find_none_absent in Hf. contradiction.
  - intros c Habs. unfold addItem.
    apply find_none_absent in Habs. rewrite Habs. reflexivity.
  - apply handleAddItem_existing.
  - intro Habs. unfold OrderPage.handleAddItem, addItem.
    change (cart_id (OrderPage.cartItem_of m)) with (item_id m).
    apply find_none_absent in Habs. rewrite Habs. reflexivity.
  - unfold OrderPage.handleAddItem, addItem, updateQuantity,
      OrderPage.cartItem_of, cart_id. simpl.
    rewrite !Z.eqb_refl. reflexivity.
  - unfold addItem, OrderPage.cartItem_of, cart_id. simpl.
    rewrite !Z.eqb_refl. reflexivity.
Qed.

Lemma add_item_witness :
  List.length (items (addItem (OrderPage.cartItem_of Sample.paneer)
                              Sample.cart5)) = 1%nat /\
  items (OrderPage.handleAddItem Sample.paneer Sample.cart5)
  = [ {| base := Sample.paneer; quantity := 3;
         special_instructions := Some "no onion"%string;
         spice_preference := Some spicy |} ] /\
  items (OrderPage.handleAddItem Sample.lassi Sample.cart5)
  = items Sample.cart5
    ++ [ {| base := Sample.lassi; quantity := 1;
            special_instructions := Some EmptyString;
            spice_preference := None |} ].
Proof.
  destruct (add_item_increments_or_appends Sample.cart5 Sample.paneer)
    as (Hold & _ & Hpage & _).
  destruct (add_item_increments_or_appends Sample.cart5 Sample.lassi)
    as (_ & _ & _ & Hnew & _).
  assert (Hin : In (item_id Sample.paneer)
                   (map cart_id (items Sample.cart5))) by (simpl; auto).
  assert (Hwf : well_formed Sample.cart5).
  { split; simpl.
    - constructor; [simpl; tauto | constructor].
    - constructor; [simpl; lia | constructor]. }
  split; [| split].
  - destruct (Hold (OrderPage.cartItem_of Sample.paneer) Hin) as [Hlen _].
    exact Hlen.
  - rewrite (Hpage Hwf Hin). reflexivity.
  - apply Hnew. simpl. intros [H | []]. discriminate H.
Defined.

(** *** The spice handler goes through [clearCart] and [addItem] *)

Lemma fold_addItem_fresh (ls acc : list CartItem) (t : option Z) :
  NoDup (map cart_id (acc ++ ls)) ->
  fold_left (fun st item => addItem item st) ls
            {| items := acc; tableId := t |}
  = {| items := acc ++ map new_line ls; tableId := t |}.
Proof.
  revert acc. induction ls as [| l ls IH]; intros acc Hnd; simpl.
  - now rewrite app_nil_r.
  - unfold addItem at 2. simpl.
    assert (Habs : ~ In (cart_id l) (map cart_id acc)).
    { rewrite map_app in Hnd. simpl in Hnd.
      apply NoDup_remove_2 in Hnd. intro H. apply Hnd.
      apply in_or_app. now left. }
    apply find_none_absent in Habs. rewrite Habs.
    rewrite IH.
    + now rewrite <- app_assoc.
    + rewrite <- app_assoc, map_app. simpl.
      change (cart_id (new_line l)) with (cart_id l).
      rewrite map_app in Hnd. exact Hnd.
Qed.

(** On a cart with a line per identifier, [handleUpdateSpicePreference]
    leaves the lines in order with the new preference on the matching one,
    but every quantity is back to 1, every instruction is empty and the
    table identifier is gone. *)
Lemma handleUpdateSpicePreference_resets (id : Z) (lvl : SpiceLevel)
  (s : State) :
  NoDup (map cart_id (items s)) ->
  OrderPage.handleUpdateSpicePreference id lvl s
  = {| items := map (fun i => {| base := base i; quantity := 1;
                                 special_instructions := Some EmptyString;
                                 spice_preference :=
                                   if cart_id i =? id then Some lvl
                                   else spice_preference i |})
                    (items s);
       tableId := None |}.
Proof.
  intro Hnd. unfold OrderPage.handleUpdateSpicePreference, clearCart.
  rewrite fold_addItem_fresh.
  - simpl. rewrite map_map. f_equal. apply map_ext. intro i.
    destruct (cart_id i =? id); reflexivity.
  - simpl. rewrite map_map.
    erewrite map_ext; [exact Hnd |].
    intro i. destruct (cart_id i =? id); reflexivity.
Qed.

(** C4. On the cart of table 5 that holds two portions of paneer with a
    note, [handleUpdateSpicePreference] sets the preference, and also puts
    the quantity back to 1, empties the instructions and drops the table
    identifier. *)
Theorem spice_update_resets_cart :
  OrderPage.handleUpdateSpicePreference 1 mild Sample.cart5
  = {| items := [ {| base := Sample.paneer; quantity := 1;
                     special_instructions := Some EmptyString;
                     spice_preference := Some mild |} ];
       tableId := None |}.
Proof. reflexivity. Qed.

End CartAdd.


(* ================================================================== *)
(** ** Failed backend calls                                            *)
(* ================================================================== *)

Section Failures.
Import JS Types Client.
Local Open Scope string_scope.
Local Open Scope list_scope.
Local Open Scope Z_scope.

Lemma show_if (c : bool) (t : toast) (b : Browser) :
  let b' := if c then show t b else b in
  hasToken b' = hasToken b /\ pathname b' = pathname b /\
  href b' = href b /\ exists ts, toasts b' = toasts b ++ ts.
Proof.
  destruct c; cbn; repeat split.
  - eexists. reflexivity.
  - exists []. now rewrite app_nil_r.
Qed.

(** The rejection handler keeps the path and adds notifications; on a 401
    with a stored token it removes the tokens and, away from the login
    page, leaves for it. *)
Lemma on_rejected_effect (f : failure) (b : Browser) :
  pathname (on_rejected f b) = pathname b /\
  (exists ts, toasts (on_rejected f b) = toasts b ++ ts) /\
  hasToken (on_rejected f b) = hasToken b && negb (ends_session f b) /\
  href (on_rejected f b)
  = if ends_session f b && negb (String.eqb (pathname b) "/")
    then Some "/" else href b.
Proof.
  destruct f as [code data msg | msg].
  - unfold on_rejected, ends_session.
    set (b1 := if code =? 401
               then if hasToken b
                    then let b0 := removeTokens b in
                         let b2 := show (ToastError
                                    "Session expired. Please login again.")
                                    b0 in
                         if String.eqb (pathname b2) "/" then b2
                         else assign "/" b2
                    else b
               else b).
    assert (H1 : pathname b1 = pathname b /\
                 (exists ts, toasts b1 = toasts b ++ ts) /\
                 hasToken b1
                 = hasToken b && negb ((code =? 401) && hasToken b) /\
                 href b1
                 = if (code =? 401) && hasToken b
                      && negb (String.eqb (pathname b) "/")
                   then Some "/" else href b).
    { unfold b1. destruct (code =? 401); cbn [andb negb].
      - destruct (hasToken b) eqn:Ht; cbn [andb negb].
        + cbv zeta. cbn [show removeTokens pathname].
          destruct (String.eqb (pathname b) "/"); cbn;
            repeat split; eexists; reflexivity.
        + rewrite Ht. repeat split. exists []. now rewrite app_nil_r.
      - rewrite andb_true_r. repeat split.
        exists []. now rewrite app_nil_r. }
    clearbody b1. destruct H1 as (Hp1 & (ts1 & Ht1) & Hk1 & Hh1).
    cbv zeta.
    destruct (show_if (code =? 403)
                (ToastError
                   "You do not have permission to perform this action") b1)
      as (Hk2 & Hp2 & Hh2 & ts2 & Ht2).
    set (b2 := if code =? 403 then _ else b1) in *. clearbody b2.
    destruct (show_if (code =? 404) (ToastError "Resource not found") b2)
      as (Hk3 & Hp3 & Hh3 & ts3 & Ht3).
    set (b3 := if code =? 404 then _ else b2) in *. clearbody b3.
    destruct (show_if (code =? 500)
                (ToastError "Server error. Please try again later.") b3)
      as (Hk4 & Hp4 & Hh4 & ts4 & Ht4).
    set (b4 := if code =? 500 then _ else b3) in *. clearbody b4.
    split; [congruence |]. split; [| split; [congruence | congruence]].
    exists (ts1 ++ ts2 ++ ts3 ++ ts4).
    rewrite Ht4, Ht3, Ht2, Ht1, <- !app_assoc. reflexivity.
  - cbn. rewrite andb_true_r. repeat split. eexists. reflexivity.
Qed.

(** What the client does to the browser on a failed call: it keeps the
    path, shows at least one notification, and on a 401 with a stored token
    removes the tokens and, away from the login page, leaves for it. *)
Lemma request_failed {A : Type} (r : reply A) (b : Browser) :
  failed r = true ->
  fst (request r b) = Thrown /\
  pathname (snd (request r b)) = pathname b /\
  (exists t ts, toasts (snd (request r b)) = toasts b ++ ts ++ [t]) /\
  hasToken (snd (request r b)) = hasToken b && negb (session_ended r b) /\
  href (snd (request r b))
  = if session_ended r b && negb (String.eqb (pathname b) "/")
    then Some "/" else href b.
Proof.
  destruct r as [a | msg | f]; intro Hf; [discriminate | |].
  - cbn. rewrite andb_true_r. repeat split.
    eexists. exists []. reflexivity.
  - destruct (on_rejected_effect f b) as (Hp & (ts & Ht) & Hk & Hh).
    unfold session_ended.
    destruct f as [code data msg | msg]; cbn [request fst snd];
      unfold showApiError; cbn [show hasToken pathname toasts href];
      (split; [reflexivity |]); (split; [exact Hp |]);
      (split; [| split; [exact Hk | exact Hh]]);
      eexists; exists ts; rewrite Ht, <- app_assoc; reflexivity.
Qed.

Lemma request_fulfilled {A : Type} (a : A) (b : Browser) :
  request (Fulfilled a) b = (Returned a, b).
Proof. reflexivity. Qed.

(** C10 (amended). When the order creation fails (the request is rejected,
    or answered without an order), [handleGenerateKOT] leaves the cart, the
    selected table, the existing orders and the KOT number as they were,
    prints nothing, and adds its notification after those of the client.
    When the listing call fails, [fetchTables] leaves the stored listing and
    the selected table as they were and ends with the loading flag off.
    Unless the client has ended the session, the page that follows is the
    same; when it has (a 401 while a token is stored, away from the login
    page) the tokens are gone and the page that follows starts from the
    empty cart and the initial table store. *)
Theorem failed_backend_call_keeps_state :
  (forall (tableId : Z) (created : reply (option Order))
          (tablesResponse : reply Payload.payload) (s : OrderPage.State),
      OrderStore.items (OrderPage.cart s) <> [] ->
      no_order created = true ->
      let s' := OrderPage.handleGenerateKOT tableId created tablesResponse s in
      OrderPage.cart s' = OrderPage.cart s /\
      OrderPage.selectedTable s' = OrderPage.selectedTable s /\
      OrderPage.existingOrders s' = OrderPage.existingOrders s /\
      OrderPage.kotNumber s' = OrderPage.kotNumber s /\
      OrderPage.isLoading s' = OrderPage.isLoading s /\
      OrderPage.isGeneratingKOT s' = false /\
      OrderPage.log s' = OrderPage.log s /\
      OrderPage.browser s'
      = show (ToastError "Failed to generate KOT")
             (snd (request created (OrderPage.browser s))) /\
      (href (OrderPage.browser s) = None ->
       if session_ended created (OrderPage.browser s)
          && negb (String.eqb (pathname (OrderPage.browser s)) "/")
       then OrderPage.cart (OrderPage.settle s') = OrderStore.initial /\
            hasToken (OrderPage.browser (OrderPage.settle s')) = false
       else OrderPage.settle s' = s')) /\
  (forall (data : reply Payload.payload) (s : Dashboard.State),
      failed data = true ->
      let s' := Dashboard.fetchTables data s in
      TableStore.tables (Dashboard.store s')
      = TableStore.tables (Dashboard.store s) /\
      TableStore.selectedTable (Dashboard.store s')
      = TableStore.selectedTable (Dashboard.store s) /\
      TableStore.isLoading (Dashboard.store s') = false /\
      Dashboard.browser s'
      = show (ToastError "Failed to load tables")
             (snd (request data (Dashboard.browser s))) /\
      (href (Dashboard.browser s) = None ->
       if session_ended data (Dashboard.browser s)
          && negb (String.eqb (pathname (Dashboard.browser s)) "/")
       then Dashboard.store (Dashboard.settle s') = TableStore.initial /\
            hasToken (Dashboard.browser (Dashboard.settle s')) = false
       else Dashboard.settle s' = s')).
Proof.
  split.
  - intros tableId created tablesResponse s Hitems Hno. cbv zeta.
    unfold OrderPage.handleGenerateKOT.
    destruct (OrderStore.items (OrderPage.cart s)) as [| l ls] eqn:Hls;
      [contradiction |].
    cbn [OrderPage.setIsGeneratingKOT OrderPage.browser].
    assert (Hcases :
      (exists b, request created (OrderPage.browser s) = (Thrown, b)) \/
      request created (OrderPage.browser s)
      = (Returned None, OrderPage.browser s)).
    { destruct created as [[o |] | msg | f]; try discriminate Hno.
      - right. reflexivity.
      - left. eexists. reflexivity.
      - left. destruct f; eexists; reflexivity. }
    assert (Hhref : href (OrderPage.browser s) = None ->
                    href (snd (request created (OrderPage.browser s)))
                    = if session_ended created (OrderPage.browser s)
                         && negb (String.eqb
                                    (pathname (OrderPage.browser s)) "/")
                      then Some "/" else None).
    { intro Hnone.
      destruct created as [[o |] | msg | f]; try discriminate Hno.
      - cbn. exact Hnone.
      - destruct (request_failed (@NullBody (option Order) msg)
                    (OrderPage.browser s) eq_refl) as (_ & _ & _ & _ & H).
        rewrite H, Hnone. reflexivity.
      - destruct (request_failed (@Refused (option Order) f)
                    (OrderPage.browser s) eq_refl) as (_ & _ & _ & _ & H).
        rewrite H, Hnone. reflexivity. }
    assert (Htoken : session_ended created (OrderPage.browser s) = true ->
                     hasToken (snd (request created (OrderPage.browser s)))
                     = false).
    { intro Hend.
      destruct created as [[o |] | msg | f]; try discriminate Hno;
        try discriminate Hend.
      destruct (request_failed (@Refused (option Order) f)
                  (OrderPage.browser s) eq_refl) as (_ & _ & _ & H & _).
      rewrite H, Hend. apply andb_false_r. }
    destruct Hcases as [[b Hreq] | Hreq]; rewrite Hreq in *;
      cbn [snd] in *; cbn; rewrite ?Hls;
      (repeat split; try reflexivity);
      intro Hnone; specialize (Hhref Hnone);
      unfold OrderPage.settle; cbn;
      destruct (session_ended created (OrderPage.browser s)
                && negb (String.eqb (pathname (OrderPage.browser s)) "/"))
        eqn:Hend; rewrite Hhref; cbn;
      try reflexivity;
      (split; [reflexivity |]);
      apply Htoken; apply andb_prop in Hend; tauto.
  - intros data s Hf. cbv zeta. unfold Dashboard.fetchTables.
    cbn [Dashboard.with_store Dashboard.browser].
    destruct (request_failed data (Dashboard.browser s) Hf)
      as (Hthrown & _ & _ & Htoken & Hhref).
    destruct (request data (Dashboard.browser s)) as [r b] eqn:Hreq.
    cbn [fst snd] in *. subst r. cbn.
    repeat split.
    intro Hnone. unfold Dashboard.settle. cbn. rewrite Hhref, Hnone.
    destruct (session_ended data (Dashboard.browser s)) eqn:Hend;
      destruct (String.eqb (pathname (Dashboard.browser s)) "/");
      cbn; try reflexivity.
    split; [reflexivity |]. rewrite Htoken. apply andb_false_r.
Qed.

Lemma failed_backend_call_keeps_state_witness :
  OrderPage.cart
    (OrderPage.handleGenerateKOT 5 (Refused Sample.unavailable)
                                 (Fulfilled Payload.Nothing) Sample.page5)
  = Sample.cart5 /\
  TableStore.tables
    (Dashboard.store
       (Dashboard.settle
          (Dashboard.fetchTables (Refused Sample.unavailable)
                                 Sample.dashboard)))
  = Payload.Array Sample.numbered.
Proof.
  destruct failed_backend_call_keeps_state as [Hkot Hfetch].
  split.
  - destruct (Hkot 5 (Refused Sample.unavailable)
                (Fulfilled Payload.Nothing) Sample.page5) as (H & _).
    + discriminate.
    + reflexivity.
    + exact H.
  - destruct (Hfetch (Refused Sample.unavailable) Sample.dashboard eq_refl)
      as (H & _ & _ & _ & Hsettle).
    specialize (Hsettle eq_refl).
    change (Dashboard.settle
              (Dashboard.fetchTables (Refused Sample.unavailable)
                                     Sample.dashboard)
            = Dashboard.fetchTables (Refused Sample.unavailable)
                                    Sample.dashboard) in Hsettle.
    rewrite Hsettle. exact H.
Defined.

(** C10, the claim as stated: the order creation is refused with a 401
    while the captain is logged in; once the browser has followed the
    redirect of the client the cart is empty, and so is the listing after a
    listing call that is refused in the same way. *)
Lemma expired_session_discards_state :
  OrderStore.items
    (OrderPage.cart
       (OrderPage.settle
          (OrderPage.handleGenerateKOT 5 (Refused Sample.expired)
             (Fulfilled Payload.Nothing) Sample.page5)))
  = [] /\
  OrderStore.items (OrderPage.cart Sample.page5) <> [] /\
  TableStore.tables
    (Dashboard.store
       (Dashboard.settle
          (Dashboard.fetchTables (Refused Sample.expired) Sample.dashboard)))
  = Payload.Array [] /\
  TableStore.tables (Dashboard.store Sample.dashboard)
  = Payload.Array Sample.numbered.
Proof.
  repeat split. discriminate.
Qed.

End Failures.

(* ================================================================== *)
(** ** The table grid: aggregation                                     *)
(* ================================================================== *)

Section Aggregation.
Import JS Types TableGrid Rows.

Lemma map_get_set_same (k : Z) (v : Table) (m : TableMap) :
  map_get k (map_set k v m) = Some v.
Proof.
  induction m as [| [k' v'] m IH]; simpl.
  - now rewrite Z.eqb_refl.
  - destruct (Z.eqb_spec k' k) as [e | n]; simpl.
    + now rewrite Z.eqb_refl.
    + destruct (Z.eqb_spec k' k); [contradiction | exact IH].
Qed.

Lemma map_get_set_other (k k0 : Z) (v : Table) (m : TableMap) :
  k <> k0 -> map_get k0 (map_set k v m) = map_get k0 m.
Proof.
  intro Hne. induction m as [| [k' v'] m IH]; simpl.
  - destruct (Z.eqb_spec k k0); [contradiction | reflexivity].
  - destruct (Z.eqb_spec k' k) as [e | n]; simpl.
    + subst k'. destruct (Z.eqb_spec k k0); [contradiction | reflexivity].
    + destruct (k' =? k0); [reflexivity | exact IH].
Qed.

Lemma map_set_keys_present (k : Z) (v e : Table) (m : TableMap) :
  map_get k m = Some e -> map fst (map_set k v m) = map fst m.
Proof.
  induction m as [| [k' v'] m IH]; simpl; [discriminate |].
  destruct (Z.eqb_spec k' k) as [-> | n]; simpl; [reflexivity |].
  intro H. f_equal. now apply IH.
Qed.

Lemma map_set_keys_absent (k : Z) (v : Table) (m : TableMap) :
  map_get k m = None -> map fst (map_set k v m) = map fst m ++ [k].
Proof.
  induction m as [| [k' v'] m IH]; simpl; [reflexivity |].
  destruct (Z.eqb_spec k' k) as [-> | n]; simpl; [discriminate |].
  intro H. f_equal. now apply IH.
Qed.

Lemma step_get (m : TableMap) (r : Table) (id : Z) :
  map_get id (step m r)
  = if table_id r =? id
    then Some (match map_get id m with
               | Some e => merge e r
               | None => r
               end)
    else map_get id m.
Proof.
  unfold step.
  destruct (Z.eqb_spec (table_id r) id) as [<- | n].
  - destruct (map_get (table_id r) m); apply map_get_set_same.
  - destruct (map_get (table_id r) m); now apply map_get_set_other.
Qed.

Lemma aggregate_snoc (rows : list Table) (row : Table) :
  aggregate (rows ++ [row]) = step (aggregate rows) row.
Proof. unfold aggregate. now rewrite fold_left_app. Qed.

(** The entry of a table depends only on the rows of that table: it is the
    first of them, merged with the others in order. *)
Lemma fold_step_get (rows : list Table) (m : TableMap) (id : Z) :
  map_get id (fold_left step rows m)
  = match map_get id m with
    | Some e => Some (fold_left merge (rows_of id rows) e)
    | None => merge_all (rows_of id rows)
    end.
Proof.
  revert m. induction rows as [| r rows IH]; intro m; simpl.
  - destruct (map_get id m); reflexivity.
  - rewrite IH, step_get. unfold rows_of. simpl.
    destruct (table_id r =? id); simpl.
    + destruct (map_get id m); reflexivity.
    + reflexivity.
Qed.

Lemma aggregate_get (rows : list Table) (id : Z) :
  map_get id (aggregate rows) = merge_all (rows_of id rows).
Proof. unfold aggregate. now rewrite fold_step_get. Qed.

Lemma rows_of_in (rows : list Table) (r : Table) :
  In r rows -> In r (rows_of (table_id r) rows).
Proof.
  intro H. unfold rows_of. apply filter_In. split; [assumption |].
  apply Z.eqb_refl.
Qed.

Lemma aggregate_has_entry (rows : list Table) (r : Table) :
  In r rows -> exists t, map_get (table_id r) (aggregate rows) = Some t.
Proof.
  intro H. rewrite aggregate_get.
  apply rows_of_in in H.
  destruct (rows_of (table_id r) rows); [contradiction | simpl; eauto].
Qed.

(** *** What a merge keeps *)





Lemma fold_merge_running_total (rs : list Table) (e : Table) :
  total_amount (fold_left merge rs e) = running_total rs (total_amount e).
Proof.
  revert e. induction rs as [| r rs IH]; intro e; simpl.
  - reflexivity.
  - rewrite IH. reflexivity.
Qed.

Lemma entry_total (rows : list Table) (id : Z) :
  option_map total_amount (map_get id (aggregate rows))
  = match rows_of id rows with
    | [] => None
    | r :: rs => Some (running_total rs (total_amount r))
    end.
Proof.
  rewrite aggregate_get. destruct (rows_of id rows) as [| r rs]; simpl.
  - reflexivity.
  - now rewrite fold_merge_running_total.
Qed.


(** *** Amounts *)

Lemma amount_value_missing (r : Table) :
  missing (total_amount r) = true -> amount_value r = zero.
Proof.
  unfold amount_value.
  destruct (total_amount r) as [| | [s | s | | s m e] | [| c t]];
    intro H; try discriminate H; reflexivity.
Qed.

Lemma toFixed2_add_zero (x : number) : toFixed2 (add x zero) = toFixed2 x.
Proof. destruct x as [[|] | [|] | | s m e]; reflexivity. Qed.

Lemma digits_fuel_nonempty (f : nat) (n : Z) (c : ascii) (t : string) :
  exists c' t', digits_fuel f n (String c t) = String c' t'.
Proof.
  revert n c t. induction f as [| f IH]; intros n c t; cbn [digits_fuel].
  - eauto.
  - destruct (n <? 10); [eauto | apply IH].
Qed.

Lemma string_of_nonneg_nonempty (n : Z) :
  exists c t, string_of_nonneg n = String c t.
Proof.
  unfold string_of_nonneg. cbn [digits_fuel].
  destruct (n <? 10); [eauto | apply digits_fuel_nonempty].
Qed.

Lemma format_nonempty (ds : string) (n : Z) :
  ds <> EmptyString -> format ds n <> EmptyString.
Proof.
  intro Hds. destruct ds as [| c t]; [contradiction |].
  unfold format.
  repeat match goal with
         | |- context [if ?b then _ else _] => destruct b
         end; cbn; try discriminate.
  destruct (Z.to_nat n); cbn; discriminate.
Qed.

Lemma toFixed2_nonempty (x : number) :
  exists c s, toFixed2 x = String c s.
Proof.
  assert (H : toFixed2 x <> EmptyString).
  { destruct x as [[|] | [|] | | [|] m e]; cbn [toFixed2];
      try discriminate.
    destruct (at_least_1e21 m e).
    - unfold toString_finite.
      destruct (fraction m e) as [p q].
      destruct (shortest 17 _ p q (decimal_exponent p q) 1) as [s n].
      apply format_nonempty.
      destruct (string_of_nonneg_nonempty s) as (c & t & ->). discriminate.
    - unfold fixed2.
      destruct (string_of_nonneg_nonempty (hundredths m e / 100))
        as (c & t & ->). discriminate. }
  destruct (toFixed2 x) as [| c s]; [contradiction | eauto].
Qed.

Lemma or_zero_toFixed2 (x : number) :
  or_zero (AStr (toFixed2 x)) = AStr (toFixed2 x).
Proof. destruct (toFixed2_nonempty x) as (c & s & ->). reflexivity. Qed.

(** After a merge the total is the text of a number; the next merge reads
    that text. *)
Lemma running_total_snoc (rs : list Table) (first : amount) (r : Table) :
  running_total (rs ++ [r]) first
  = merge_total (running_total rs first) r.
Proof. unfold running_total. now rewrite fold_left_app. Qed.

Lemma parse_NaN_text : parseFloat_amount (or_zero (AStr "NaN")) = NaN.
Proof. reflexivity. Qed.

Lemma merge_total_NaN (total : amount) (r : Table) :
  parseFloat_amount (or_zero total) = NaN \/ amount_value r = NaN ->
  merge_total total r = AStr "NaN".
Proof.
  unfold merge_total. intros [H | H]; rewrite H.
  - reflexivity.
  - now rewrite add_NaN_r.
Qed.

Lemma running_total_NaN (rs : list Table) (first : amount) :
  parseFloat_amount (or_zero first) = NaN -> rs <> [] ->
  running_total rs first = AStr "NaN".
Proof.
  revert first. induction rs as [| r rs IH]; intros first H Hne;
    [contradiction |].
  cbn [running_total fold_left].
  rewrite (merge_total_NaN first r) by (now left).
  destruct rs as [| r' rs']; [reflexivity |].
  apply IH; [reflexivity | discriminate].
Qed.

(** *** Whole amounts: no merge rounds *)

Lemma whole_sum_nonneg (units : Table -> Z) (rs : list Table) :
  whole_amounts units rs -> 0 <= whole_sum units rs.
Proof.
  induction rs as [| r rs IH]; intro H; simpl; [lia |].
  destruct (H r (or_introl eq_refl)) as [Hr _].
  assert (0 <= whole_sum units rs) by (apply IH; intros x Hx; apply H; now right).
  lia.
Qed.

Lemma merge_total_whole (total : amount) (r : Table) (a u : Z) :
  0 <= a -> 0 <= u -> a + u < 2 ^ 53 ->
  parseFloat_amount (or_zero total) = of_Z a ->
  amount_value r = of_Z u ->
  merge_total total r = AStr (fixed2 (100 * (a + u))) /\
  parseFloat_amount (or_zero (merge_total total r)) = of_Z (a + u).
Proof.
  intros Ha Hu Hlt Ht Hr.
  assert (Heq : merge_total total r = AStr (fixed2 (100 * (a + u)))).
  { unfold merge_total. rewrite Ht, Hr, of_Z_add by lia.
    now rewrite toFixed2_of_Z by lia. }
  split; [exact Heq |].
  rewrite Heq, or_zero_fixed2 by lia. cbn [parseFloat_amount].
  rewrite parseFloat_fixed2 by lia. apply dec_whole. lia.
Qed.

Lemma running_total_whole (units : Table -> Z) (rs : list Table)
  (first : amount) (a : Z) :
  rs <> [] -> 0 <= a ->
  parseFloat_amount (or_zero first) = of_Z a ->
  whole_amounts units rs ->
  a + whole_sum units rs < 2 ^ 53 ->
  running_total rs first = AStr (fixed2 (100 * (a + whole_sum units rs))).
Proof.
  revert first a. induction rs as [| r rs IH];
    intros first a Hne Ha Hfirst Hrs Hlt; [contradiction |].
  destruct (Hrs r (or_introl eq_refl)) as [Hu Hr].
  assert (Hrest : whole_amounts units rs)
    by (intros x Hx; apply Hrs; now right).
  pose proof (whole_sum_nonneg units rs Hrest) as Hnn.
  cbn [whole_sum] in *.
  destruct (merge_total_whole first r a (units r)) as [Heq Hparse];
    try assumption; try lia.
  cbn [running_total fold_left].
  destruct rs as [| r' rs'].
  - cbn [fold_left whole_sum]. rewrite Heq. do 3 f_equal. lia.
  - change (fold_left merge_total (r' :: rs') (merge_total first r))
      with (running_total (r' :: rs') (merge_total first r)).
    rewrite (IH (merge_total first r) (a + units r));
      try assumption; try lia; [| discriminate].
    do 3 f_equal. lia.
Qed.


(** The total of a table with two rows or more that carry whole amounts is
    their sum, with two zeros. *)
Lemma total_of_whole_amounts (units : Table -> Z) (r1 r2 : Table)
  (rs : list Table) :
  whole_amounts units (r1 :: r2 :: rs) ->
  whole_sum units (r1 :: r2 :: rs) < 2 ^ 53 ->
  running_total (r2 :: rs) (total_amount r1)
  = AStr (fixed2 (100 * whole_sum units (r1 :: r2 :: rs))).
Proof.
  intros Hw Hlt.
  destruct (Hw r1 (or_introl eq_refl)) as [Hu Hr].
  apply (running_total_whole units (r2 :: rs) (total_amount r1) (units r1)).
  - discriminate.
  - exact Hu.
  - exact Hr.
  - intros x Hx. apply Hw. now right.
  - exact Hlt.
Qed.

End Aggregation.

(* ================================================================== *)
(** ** The table grid: the claims on merged rows                       *)
(* ================================================================== *)

Section AmountClaims.
Import JS Types TableGrid Rows.
Local Open Scope string_scope.
Local Open Scope list_scope.
Local Open Scope Z_scope.

(** C2 (amended). When the aggregator meets a row whose table identifier
    is already in the map, the entry of that table gets as its total the
    binary64 sum of what its total reads as and what the amount of the row
    reads as, printed with two decimals; its status is running when the
    entry or the row is running, and the status of the entry otherwise; an
    order identifier of the entry that is truthy (not null and not 0) is
    kept, and the one of the row is taken when the entry has null or 0;
    number, block and capacity stay; the other entries, and the order and
    number of the entries, stay.  Two rows of one table with the amounts
    250.00 and 180.50, one of them running, give a single entry with
    430.50 and status running. *)
Theorem merge_duplicate_row :
  (forall (rows : list Table) (row existing : Table),
      map_get (table_id row) (aggregate rows) = Some existing ->
      exists merged : Table,
        map_get (table_id row) (aggregate (rows ++ [row])) = Some merged /\
        total_amount merged
        = AStr (toFixed2 (add (amount_value existing) (amount_value row))) /\
        (status existing = running \/ status row = running ->
         status merged = running) /\
        (status row <> running -> status merged = status existing) /\
        (forall n : Z, current_order_id existing = Some n -> n <> 0 ->
                       current_order_id merged = Some n) /\
        (current_order_id existing = None \/
         current_order_id existing = Some 0 ->
         current_order_id merged = current_order_id row) /\
        table_number merged = table_number existing /\
        table_block merged = table_block existing /\
        seating_capacity merged = seating_capacity existing /\
        (forall id : Z, id <> table_id row ->
                        map_get id (aggregate (rows ++ [row]))
                        = map_get id (aggregate rows)) /\
        map fst (aggregate (rows ++ [row])) = map fst (aggregate rows)) /\
  (forall r1 r2 : Table,
      table_id r1 = table_id r2 ->
      (total_amount r1 = AStr "250.00" /\ total_amount r2 = AStr "180.50") \/
      (total_amount r1 = AStr "180.50" /\ total_amount r2 = AStr "250.00") ->
      (status r1 = running /\ status r2 <> running) \/
      (status r1 <> running /\ status r2 = running) ->
      exists t : Table,
        aggregated [r1; r2] = [t] /\
        total_amount t = AStr "430.50" /\ status t = running).
Proof.
  split.
  - intros rows row existing Hget. exists (merge existing row).
    rewrite aggregate_snoc.
    split; [| split; [| split; [| split; [| split; [| split;
      [| split; [| split; [| split; [| split]]]]]]]]].
    + rewrite step_get, Z.eqb_refl, Hget. reflexivity.
    + reflexivity.
    + simpl. intros [He | Hr].
      * rewrite He. destruct (status row); reflexivity.
      * rewrite Hr. reflexivity.
    + simpl. intro Hr. destruct (status row); congruence.
    + simpl. intros n Hn Hnz. rewrite Hn. simpl.
      destruct (Z.eqb_spec n 0); [contradiction | reflexivity].
    + simpl. intros [Hn | Hn]; rewrite Hn; reflexivity.
    + reflexivity.
    + reflexivity.
    + reflexivity.
    + intros id Hne. rewrite step_get.
      destruct (Z.eqb_spec (table_id row) id); [congruence | reflexivity].
    + unfold step. rewrite Hget. eapply map_set_keys_present. exact Hget.
  - intros r1 r2 Hid Hamt Hst. exists (merge r1 r2).
    split; [| split].
    + unfold aggregated, aggregate, step. simpl.
      rewrite Hid, Z.eqb_refl. reflexivity.
    + simpl. unfold amount_value.
      destruct Hamt as [[-> ->] | [-> ->]]; vm_compute; reflexivity.
    + simpl. destruct Hst as [[H1 H2] | [H1 H2]].
      * rewrite H1. destruct (status r2); congruence.
      * rewrite H2. reflexivity.
Qed.

Lemma merge_duplicate_row_witness :
  (exists merged : Table,
      map_get 1 (aggregate ([Sample.r250] ++ [Sample.r180])) = Some merged /\
      total_amount merged = AStr "430.50" /\
      status merged = running /\ current_order_id merged = Some 7) /\
  (exists t : Table,
      aggregated [Sample.row 1 "1" empty None (AStr "250.00");
                  Sample.row 1 "1" running (Some 9) (AStr "180.50")] = [t] /\
      total_amount t = AStr "430.50" /\ status t = running).
Proof.
  destruct merge_duplicate_row as [Hstep Hpair].
  split.
  - destruct (Hstep [Sample.r250] Sample.r180 Sample.r250 eq_refl)
      as (merged & Hget & Htot & Hrun & _ & Hid & _).
    exists merged. split; [exact Hget |].
    split; [rewrite Htot; vm_compute; reflexivity |].
    split; [apply Hrun; now left |].
    apply (Hid 7); [reflexivity | discriminate].
  - apply Hpair.
    + reflexivity.
    + left. split; reflexivity.
    + right. split; [discriminate | reflexivity].
Defined.

(** C2, the claim as stated: an order identifier 0 is not null, and the
    merge overwrites it with the identifier of the next row; and what is
    stored is not the sum but its text with two decimals, 0.01 for the
    amounts 0.004 and 0.004. *)
Lemma order_id_zero_is_overwritten :
  option_map current_order_id
             (map_get 1 (aggregate [Sample.order0; Sample.order9]))
  = Some (Some 9) /\
  option_map total_amount
             (map_get 1 (aggregate [Sample.mills4; Sample.mills4]))
  = Some (AStr "0.01").
Proof. split; vm_compute; reflexivity. Qed.

(** C5, the claim as stated: a second row whose amount is not a number
    makes the total [NaN]; and a row without an amount is not neutral: it
    makes the aggregator round the amount of the first row, so that 0.004,
    null, 0.004 give 0.00 where 0.004, 0.004 give 0.01. *)
Lemma malformed_amount_gives_NaN :
  option_map total_amount
             (map_get 1 (aggregate [Sample.r100; Sample.garbled]))
  = Some (AStr "NaN") /\
  option_map total_amount
             (map_get 1 (aggregate [Sample.mills4; Sample.blank;
                                    Sample.mills4]))
  = Some (AStr "0.00") /\
  option_map total_amount
             (map_get 1 (aggregate [Sample.mills4; Sample.mills4]))
  = Some (AStr "0.01").
Proof. repeat split; vm_compute; reflexivity. Qed.

(** C5 (amended). The aggregation has a result for every listing, with an
    entry for the table of every row.  The first row of a table is stored
    as it is.  A later row whose amount is missing (undefined, null, the
    empty string, 0 or NaN) is read as 0: the total of the entry becomes
    what it read as before, printed with two decimals.  A later row whose
    amount does not read as a number makes the total the text NaN, and so
    does every row after a total that does not read as a number. *)
Theorem missing_amount_adds_zero :
  (forall (rows : list Table) (row : Table),
      In row rows ->
      exists entry, map_get (table_id row) (aggregate rows) = Some entry) /\
  (forall (rows : list Table) (row : Table),
      map_get (table_id row) (aggregate rows) = None ->
      map_get (table_id row) (aggregate (rows ++ [row])) = Some row) /\
  (forall (rows : list Table) (row existing : Table),
      map_get (table_id row) (aggregate rows) = Some existing ->
      missing (total_amount row) = true ->
      option_map total_amount
                 (map_get (table_id row) (aggregate (rows ++ [row])))
      = Some (AStr (toFixed2 (amount_value existing)))) /\
  (forall (rows : list Table) (row existing : Table),
      map_get (table_id row) (aggregate rows) = Some existing ->
      amount_value row = NaN \/ amount_value existing = NaN ->
      option_map total_amount
                 (map_get (table_id row) (aggregate (rows ++ [row])))
      = Some (AStr "NaN")).
Proof.
  split; [| split; [| split]].
  - intros rows row Hin. now apply aggregate_has_entry.
  - intros rows row Hget.
    rewrite aggregate_snoc, step_get, Z.eqb_refl, Hget. reflexivity.
  - intros rows row existing Hget Hmiss.
    rewrite aggregate_snoc, step_get, Z.eqb_refl, Hget.
    cbn [option_map merge total_amount]. fold (amount_value existing).
    fold (amount_value row).
    rewrite (amount_value_missing row Hmiss), toFixed2_add_zero.
    reflexivity.
  - intros rows row existing Hget Hnan.
    rewrite aggregate_snoc, step_get, Z.eqb_refl, Hget.
    cbn [option_map merge total_amount]. fold (amount_value existing).
    fold (amount_value row).
    destruct Hnan as [H | H]; rewrite H.
    + now rewrite add_NaN_r.
    + reflexivity.
Qed.

Lemma missing_amount_adds_zero_witness :
  option_map total_amount
             (map_get 1 (aggregate ([Sample.r100] ++ [Sample.blank])))
  = Some (AStr "100.00") /\
  option_map total_amount
             (map_get 1 (aggregate ([Sample.r100; Sample.garbled]
                                    ++ [Sample.r100])))
  = Some (AStr "NaN").
Proof.
  destruct missing_amount_adds_zero as (_ & _ & Hzero & Hnan).
  split.
  - refine (eq_trans (Hzero [Sample.r100] Sample.blank Sample.r100
                             eq_refl eq_refl) _).
    vm_compute. reflexivity.
  - apply (Hnan [Sample.r100; Sample.garbled] Sample.r100
                (merge Sample.r100 Sample.garbled) eq_refl).
    right. vm_compute. reflexivity.
Defined.

(** C6, the claim as stated: the rows 0.002, 0.002 and 0.004 of one table
    are shown as 0.00, because the running total is rounded to 0.00 after
    the second row, while their sum rounded when it is shown is 0.01. *)
Lemma aggregator_rounds_between_additions :
  option_map total_amount
             (map_get 1 (aggregate [Sample.mills2; Sample.mills2;
                                    Sample.mills4]))
  = Some (AStr "0.00") /\
  rounded_at_display [Sample.mills2; Sample.mills2; Sample.mills4] = "0.01".
Proof. split; vm_compute; reflexivity. Qed.

(** C6 (amended). The cart totals are binary64 results that are never
    rounded to two decimals: the tax is the subtotal times 0.05 and the
    total is their sum, on the page as in the store.  The total of a table
    in the grid is the amount of its first row as it came when the table
    has one row; each further row replaces it by the text, with two
    decimals, of the sum of what it reads as and what the amount of the
    row reads as, so after every merge it is the text of a number rounded
    to two decimals.  When the rows carry whole amounts whose sum is below
    2^53, rounding at every merge changes nothing: the total is their exact
    sum. *)
Theorem rounding_points :
  (forall s : OrderStore.State,
      OrderStore.getTax s
      = mul (OrderStore.getSubtotal s) (parseFloat "0.05") /\
      OrderStore.getTotal s
      = add (OrderStore.getSubtotal s) (OrderStore.getTax s) /\
      OrderPage.subtotal s = OrderStore.getSubtotal s /\
      OrderPage.tax s = OrderStore.getTax s /\
      OrderPage.total s = OrderStore.getTotal s) /\
  (forall (rows : list Table) (id : Z),
      option_map total_amount (map_get id (aggregate rows))
      = match rows_of id rows with
        | [] => None
        | r :: rs => Some (running_total rs (total_amount r))
        end) /\
  (forall (rs : list Table) (first : amount) (r : Table),
      running_total (rs ++ [r]) first
      = AStr (toFixed2 (add (parseFloat_amount
                               (or_zero (running_total rs first)))
                            (amount_value r))) /\
      parseFloat_amount (or_zero (running_total (rs ++ [r]) first))
      = parseFloat (toFixed2 (add (parseFloat_amount
                                     (or_zero (running_total rs first)))
                                  (amount_value r)))) /\
  (forall (units : Table -> Z) (r1 r2 : Table) (rs : list Table),
      whole_amounts units (r1 :: r2 :: rs) ->
      whole_sum units (r1 :: r2 :: rs) < 2 ^ 53 ->
      running_total (r2 :: rs) (total_amount r1)
      = AStr (fixed2 (100 * whole_sum units (r1 :: r2 :: rs))) /\
      toFixed2 (of_Z (whole_sum units (r1 :: r2 :: rs)))
      = fixed2 (100 * whole_sum units (r1 :: r2 :: rs))).
Proof.
  split; [| split; [| split]].
  - intro s. repeat split.
  - apply entry_total.
  - intros rs first r. rewrite running_total_snoc. unfold merge_total.
    split; [reflexivity |].
    now rewrite or_zero_toFixed2.
  - intros units r1 r2 rs Hw Hlt.
    split; [now apply total_of_whole_amounts |].
    apply toFixed2_of_Z. split; [| exact Hlt].
    now apply whole_sum_nonneg.
Qed.

Lemma rounding_points_witness :
  running_total [Sample.r100; Sample.order9] (total_amount Sample.r250)
  = AStr "400.00".
Proof.
  destruct rounding_points as (_ & _ & _ & Hwhole).
  destruct (Hwhole Sample.units Sample.r250 Sample.r100 [Sample.order9])
    as [H _].
  - intros r [<- | [<- | [<- | []]]]; split; vm_compute;
      try reflexivity; discriminate.
  - vm_compute. reflexivity.
  - rewrite H. vm_compute. reflexivity.
Defined.




End AmountClaims.

(* ================================================================== *)
(** ** The table grid: blocks and the order inside a block             *)
(* ================================================================== *)

Section Sorting.
Import JS.
Context {A : Type} (cmp : A -> A -> comparison).
Hypothesis cmp_consistent : consistent cmp.

Let le (x y : A) : Prop := cmp x y <> Gt.

Lemma cmp_total (x y : A) : cmp x y = Gt -> le y x.
Proof.
  intro H. unfold le. destruct cmp_consistent as [Hanti _].
  rewrite Hanti, H. discriminate.
Qed.

Lemma insert_by_perm (x : A) (l : list A) :
  Permutation (insert_by cmp x l) (x :: l).
Proof.
  induction l as [| y l IH]; simpl.
  - apply Permutation_refl.
  - destruct (cmp x y); try apply Permutation_refl.
    eapply perm_trans; [apply perm_skip, IH | apply perm_swap].
Qed.

Lemma sort_by_perm (l : list A) : Permutation (sort_by cmp l) l.
Proof.
  induction l as [| x l IH]; simpl.
  - constructor.
  - eapply perm_trans; [apply insert_by_perm | now constructor].
Qed.

Lemma insert_by_hd (x y : A) (l : list A) :
  le y x -> HdRel le y l -> HdRel le y (insert_by cmp x l).
Proof.
  intros Hyx Hl. destruct l as [| z l]; simpl.
  - now constructor.
  - destruct (cmp x z); constructor; try assumption;
      now inversion Hl.
Qed.

Lemma insert_by_sorted (x : A) (l : list A) :
  Sorted le l -> Sorted le (insert_by cmp x l).
Proof.
  induction l as [| y l IH]; simpl; intro Hs.
  - repeat constructor.
  - inversion Hs as [| ? ? Hs' Hhd]; subst.
    destruct (cmp x y) eqn:E.
    + constructor; [assumption |]. constructor. unfold le. congruence.
    + constructor; [assumption |]. constructor. unfold le. congruence.
    + constructor; [now apply IH |].
      apply insert_by_hd; [now apply cmp_total | assumption].
Qed.

(** The result of the sort is in order: no element is after a later one. *)
Lemma sort_by_sorted (l : list A) : StronglySorted le (sort_by cmp l).
Proof.
  apply Sorted_StronglySorted.
  - intros x y z Hxy Hyz. destruct cmp_consistent as [_ Htrans].
    exact (Htrans x y z Hxy Hyz).
  - induction l as [| x l IH]; simpl.
    + constructor.
    + now apply insert_by_sorted.
Qed.

End Sorting.

Section SortingExt.
Import JS.
Context {A : Type}.

Lemma insert_by_ext_in (cmp1 cmp2 : A -> A -> comparison) (x : A)
  (l : list A) :
  (forall y, In y l -> cmp1 x y = cmp2 x y) ->
  insert_by cmp1 x l = insert_by cmp2 x l.
Proof.
  induction l as [| y l IH]; intro H; simpl; [reflexivity |].
  rewrite (H y (or_introl eq_refl)).
  destruct (cmp2 x y); try reflexivity.
  f_equal. apply IH. intros z Hz. apply H. now right.
Qed.

(** Two comparison functions that agree on the elements sort alike. *)
Lemma sort_by_ext_in (cmp1 cmp2 : A -> A -> comparison) (l : list A) :
  (forall x y, In x l -> In y l -> cmp1 x y = cmp2 x y) ->
  sort_by cmp1 l = sort_by cmp2 l.
Proof.
  induction l as [| x l IH]; intro H; simpl; [reflexivity |].
  rewrite IH by (intros; apply H; now right).
  apply insert_by_ext_in. intros y Hy. apply H; [now left |].
  right. eapply Permutation_in; [apply sort_by_perm | exact Hy].
Qed.

End SortingExt.

Section CodeUnits.
Import JS.

Lemma ascii_compare_N (a b : ascii) :
  Ascii.compare a b = (N_of_ascii a ?= N_of_ascii b)%N.
Proof. reflexivity. Qed.

Lemma string_compare_trans (a b c : string) :
  String.compare a b <> Gt -> String.compare b c <> Gt ->
  String.compare a c <> Gt.
Proof.
  revert b c. induction a as [| x a IH]; intros [| y b] [| z c];
    cbn [String.compare]; try congruence.
  rewrite !ascii_compare_N.
  destruct (N.compare_spec (N_of_ascii x) (N_of_ascii y)) as [Hxy | Hxy | Hxy];
    destruct (N.compare_spec (N_of_ascii y) (N_of_ascii z))
      as [Hyz | Hyz | Hyz]; try congruence.
  - rewrite Hxy, Hyz, N.compare_refl. apply IH.
  - intros _ _. rewrite Hxy.
    apply N.compare_lt_iff in Hyz. rewrite Hyz. discriminate.
  - intros _ _. rewrite <- Hyz.
    apply N.compare_lt_iff in Hxy. rewrite Hxy. discriminate.
  - intros _ _.
    assert (H : (N_of_ascii x < N_of_ascii z)%N) by lia.
    apply N.compare_lt_iff in H. rewrite H. discriminate.
Qed.

(** The order of the code units is a consistent comparison. *)
Lemma code_unit_compare_consistent : consistent code_unit_compare.
Proof.
  split.
  - intros a b. apply String.compare_antisym.
  - intros a b c. apply string_compare_trans.
Qed.

Lemma code_unit_compare_digitwise : digitwise code_unit_compare.
Proof. intros a b _ _. reflexivity. Qed.

End CodeUnits.

Section Blocks.
Import JS Types TableGrid Rows.
Local Open Scope string_scope.
Local Open Scope list_scope.

Lemma group_get_push_same (b : string) (t : Table) (g : Groups)
  (ts : list Table) :
  group_get b g = Some ts -> group_get b (group_push b t g) = Some (ts ++ [t]).
Proof.
  induction g as [| [b' ts'] g IH]; cbn [group_get group_push];
    [discriminate |].
  destruct (String.eqb b' b) eqn:E; cbn [group_get]; rewrite E.
  - intro H. inversion H. reflexivity.
  - exact IH.
Qed.

Lemma group_get_push_other (b b0 : string) (t : Table) (g : Groups) :
  b <> b0 -> group_get b0 (group_push b t g) = group_get b0 g.
Proof.
  intro Hne. induction g as [| [b' ts'] g IH]; cbn [group_get group_push];
    [reflexivity |].
  destruct (String.eqb_spec b' b) as [-> | n]; cbn [group_get].
  - destruct (String.eqb_spec b b0); [contradiction | reflexivity].
  - destruct (String.eqb b' b0); [reflexivity | exact IH].
Qed.

Lemma group_push_keys (b : string) (t : Table) (g : Groups) :
  map fst (group_push b t g) = map fst g.
Proof.
  induction g as [| [b' ts'] g IH]; cbn [group_push map fst];
    [reflexivity |].
  destruct (String.eqb b' b); cbn [map fst]; [reflexivity |].
  now rewrite IH.
Qed.

Lemma group_get_app_new (b b0 : string) (ts : list Table) (g : Groups) :
  group_get b g = None ->
  group_get b0 (g ++ [(b, ts)])
  = if String.eqb b b0 then Some ts else group_get b0 g.
Proof.
  intro Hnone. induction g as [| [b' ts'] g IH]; cbn [group_get app].
  - reflexivity.
  - cbn [group_get] in Hnone.
    destruct (String.eqb_spec b' b) as [-> | n]; [discriminate |].
    destruct (String.eqb_spec b' b0) as [-> | n0].
    + destruct (String.eqb_spec b b0); [congruence | reflexivity].
    + now apply IH.
Qed.

Lemma group_get_none_keys (b : string) (g : Groups) :
  group_get b g = None <-> ~ In b (map fst g).
Proof.
  induction g as [| [b' ts'] g IH]; cbn [group_get map fst In]; [tauto |].
  destruct (String.eqb_spec b' b) as [-> | n].
  - split; [discriminate | intro H; exfalso; apply H; now left].
  - rewrite IH. tauto.
Qed.

(** What the reduction does with one more table, on labels that are not
    inherited. *)
Lemma push_group_value (g : Groups) (t : Table) :
  inherited (table_block t) = false ->
  exists g',
    push_group g t = Value g' /\
    (forall b, group_of b g'
               = group_of b g
                 ++ (if String.eqb (table_block t) b then [t] else [])) /\
    (forall b, In b (map fst g')
               <-> In b (map fst g) \/ b = table_block t) /\
    (NoDup (map fst g) -> NoDup (map fst g')).
Proof.
  intro Hinh. unfold push_group.
  destruct (group_get (table_block t) g) as [ts |] eqn:Hget.
  - eexists. split; [reflexivity |]. split; [| split].
    + intro b. unfold group_of.
      destruct (String.eqb_spec (table_block t) b) as [<- | n].
      * now rewrite (group_get_push_same _ _ _ _ Hget), Hget.
      * rewrite group_get_push_other by assumption.
        now rewrite app_nil_r.
    + intro b. rewrite group_push_keys. split; [tauto |].
      intros [H | ->]; [assumption |].
      destruct (in_dec string_dec (table_block t) (map fst g))
        as [Hin | Hnin]; [assumption |].
      apply group_get_none_keys in Hnin. congruence.
    + now rewrite group_push_keys.
  - rewrite Hinh. eexists. split; [reflexivity |]. split; [| split].
    + intro b. unfold group_of.
      rewrite group_get_app_new by assumption.
      destruct (String.eqb_spec (table_block t) b) as [<- | n].
      * now rewrite Hget.
      * now rewrite app_nil_r.
    + intro b. rewrite map_app, in_app_iff. cbn. intuition.
    + intro Hnd. rewrite map_app. cbn [map fst].
      apply NoDup_app; [assumption | | ].
      * constructor; [intros [] | constructor].
      * intros x Hx [<- | []].
        now apply group_get_none_keys in Hget.
Qed.

Lemma fold_TypeError (ts : list Table) :
  fold_left (fun acc table =>
               match acc with
               | Value g => push_group g table
               | TypeError => TypeError
               end) ts TypeError = TypeError.
Proof. induction ts as [| t ts IH]; [reflexivity | exact IH]. Qed.

Lemma fold_push_value (ts : list Table) (g : Groups) :
  (forall t, In t ts -> inherited (table_block t) = false) ->
  exists g',
    fold_left (fun acc table =>
                 match acc with
                 | Value g => push_group g table
                 | TypeError => TypeError
                 end) ts (Value g) = Value g' /\
    (forall b, group_of b g' = group_of b g ++ tables_of_block b ts) /\
    (forall b, In b (map fst g')
               <-> In b (map fst g) \/ In b (map table_block ts)) /\
    (NoDup (map fst g) -> NoDup (map fst g')).
Proof.
  revert g. induction ts as [| t ts IH]; intros g Hinh.
  - exists g. split; [reflexivity |]. split; [| split].
    + intro b. now rewrite app_nil_r.
    + intro b. cbn. tauto.
    + tauto.
  - destruct (push_group_value g t (Hinh t (or_introl eq_refl)))
      as (g1 & Hpush & Hgroup1 & Hkeys1 & Hnd1).
    destruct (IH g1) as (g' & Hfold & Hgroup & Hkeys & Hnd);
      [intros; apply Hinh; now right |].
    exists g'. cbn [fold_left]. rewrite Hpush.
    split; [exact Hfold |]. split; [| split].
    + intro b. rewrite Hgroup, Hgroup1, <- app_assoc.
      unfold tables_of_block. cbn [filter].
      destruct (String.eqb (table_block t) b); reflexivity.
    + intro b. rewrite Hkeys, Hkeys1. cbn [map In]. intuition.
    + tauto.
Qed.

Lemma fold_push_error (ts : list Table) (g : Groups) :
  (forall b, In b (map fst g) -> inherited b = false) ->
  (exists t, In t ts /\ inherited (table_block t) = true) ->
  fold_left (fun acc table =>
               match acc with
               | Value g => push_group g table
               | TypeError => TypeError
               end) ts (Value g) = TypeError.
Proof.
  revert g. induction ts as [| t ts IH]; intros g Hkeys (x & Hx & Hinh).
  - contradiction.
  - cbn [fold_left].
    destruct (inherited (table_block t)) eqn:Ht.
    + unfold push_group.
      destruct (group_get (table_block t) g) as [l |] eqn:Hget.
      * assert (Hin : In (table_block t) (map fst g)).
        { destruct (in_dec string_dec (table_block t) (map fst g))
            as [Hin | Hnin]; [assumption |].
          apply group_get_none_keys in Hnin. congruence. }
        apply Hkeys in Hin. congruence.
      * rewrite Ht. apply fold_TypeError.
    + destruct (push_group_value g t Ht) as (g1 & Hpush & _ & Hkeys1 & _).
      rewrite Hpush. apply IH.
      * intros b Hb. apply Hkeys1 in Hb. destruct Hb as [Hb | ->];
          [now apply Hkeys | exact Ht].
      * destruct Hx as [-> | Hx]; [congruence |]. eauto.
Qed.

Lemma groupedTables_error (ts : list Table) :
  (exists t, In t ts /\ inherited (table_block t) = true) ->
  groupedTables ts = TypeError.
Proof.
  intro Hex. unfold groupedTables.
  apply fold_push_error; [intros b [] | exact Hex].
Qed.

Lemma groupedTables_value (ts : list Table) :
  (forall t, In t ts -> inherited (table_block t) = false) ->
  exists g,
    groupedTables ts = Value g /\
    (forall b, group_of b g = tables_of_block b ts) /\
    (forall b, In b (map fst g) <-> In b (map table_block ts)) /\
    NoDup (map fst g).
Proof.
  intro Hinh.
  destruct (fold_push_value ts [] Hinh) as (g & Hfold & Hgroup & Hkeys & Hnd).
  exists g. split; [exact Hfold |]. split; [| split].
  - intro b. now rewrite Hgroup.
  - intro b. rewrite Hkeys. cbn. tauto.
  - apply Hnd. constructor.
Qed.

(** C3, the claim as stated: for every collation that compares strings of
    digits digit by digit, as the default collation does without the
    numeric option, the tables numbered 2, 10 and 1 come out as 1, 10, 2:
    the order is not numeric. *)
Lemma block_order_is_not_numeric :
  digitwise code_unit_compare /\
  consistent code_unit_compare /\
  forall collate : string -> string -> comparison,
    digitwise collate ->
    groupByBlock collate Sample.numbered
    = Value [ ("A", [ Sample.row 3 "1" empty None ANull;
                      Sample.row 2 "10" empty None ANull;
                      Sample.row 1 "2" empty None ANull ]) ].
Proof.
  split; [apply code_unit_compare_digitwise |].
  split; [apply code_unit_compare_consistent |].
  intros collate Hd.
  change (groupByBlock collate Sample.numbered)
    with (Value [ ("A", sort_block collate Sample.numbered) ]).
  unfold sort_block, sort_by, Sample.numbered, Sample.row.
  cbn [fold_right insert_by table_number].
  rewrite (Hd "10" "1") by reflexivity.
  change (code_unit_compare "10" "1") with Gt.
  cbn [insert_by table_number].
  rewrite (Hd "2" "1") by reflexivity.
  change (code_unit_compare "2" "1") with Gt.
  cbn [insert_by table_number].
  rewrite (Hd "2" "10") by reflexivity.
  change (code_unit_compare "2" "10") with Gt.
  reflexivity.
Qed.

(** C3 (amended). When a block label is the name of a property that every
    object inherits, the grouping throws a TypeError.  Otherwise there is
    one block for every label of the listing, the blocks are in the order
    of the code units of their labels, and the cards of a block are the
    tables of that block, each once, ordered by display number with
    [localeCompare] in the default collation, for which only consistency is
    assumed; when the collation compares strings of digits digit by digit
    and the display numbers are strings of digits, the order is that of
    the code units, which is not numeric. *)
Theorem block_sorted_by_locale_compare
  (localeCompare : string -> string -> comparison)
  (tableArray : list Table) :
  consistent localeCompare ->
  ((exists t, In t tableArray /\ inherited (table_block t) = true) ->
   groupByBlock localeCompare tableArray = TypeError) /\
  ((forall t, In t tableArray -> inherited (table_block t) = false) ->
   exists blocks : list (string * list Table),
     groupByBlock localeCompare tableArray = Value blocks /\
     NoDup (map fst blocks) /\
     StronglySorted (fun a b => code_unit_compare a b <> Gt)
                    (map fst blocks) /\
     (forall b, In b (map fst blocks) <-> In b (map table_block tableArray)) /\
     (forall b cards,
         In (b, cards) blocks ->
         Permutation cards (tables_of_block b tableArray) /\
         StronglySorted (number_le localeCompare) cards /\
         cards = sort_block localeCompare (tables_of_block b tableArray) /\
         (digitwise localeCompare ->
          (forall t, In t tableArray ->
                     all_digits (table_number t) = true) ->
          cards = sort_by (fun x y => code_unit_compare (table_number x)
                                                        (table_number y))
                          (tables_of_block b tableArray)))).
Proof.
  intro Hcons. split.
  - intro Hex. unfold groupByBlock.
    now rewrite (groupedTables_error tableArray Hex).
  - intro Hinh.
    destruct (groupedTables_value tableArray Hinh)
      as (g & Hfold & Hgroup & Hkeys & Hnd).
    unfold groupByBlock. rewrite Hfold.
    eexists. split; [reflexivity |].
    assert (Hperm : Permutation (sortedBlocks g) (map fst g))
      by (apply sort_by_perm).
    assert (Hfst : map fst (map (fun block =>
                                   (block, sort_block localeCompare
                                             (group_of block g)))
                                (sortedBlocks g))
                   = sortedBlocks g).
    { rewrite map_map. cbn [fst]. apply map_id. }
    assert (Hcmp : consistent
                     (fun a b : Table =>
                        localeCompare (table_number a) (table_number b))).
    { destruct Hcons as [Hanti Htrans]. split.
      - intros a b. apply Hanti.
      - intros a b c. apply Htrans. }
    split; [| split; [| split]].
    + rewrite Hfst.
      eapply Permutation_NoDup; [apply Permutation_sym, Hperm |].
      exact Hnd.
    + rewrite Hfst. apply (sort_by_sorted code_unit_compare).
      apply code_unit_compare_consistent.
    + intro b. rewrite Hfst. split.
      * intro Hb. apply (Permutation_in _ Hperm) in Hb.
        now apply Hkeys.
      * intro Hb. apply (Permutation_in _ (Permutation_sym Hperm)).
        now apply Hkeys.
    + intros b cards Hin. apply in_map_iff in Hin.
      destruct Hin as (b' & Heq & _). inversion Heq; subst b' cards.
      rewrite Hgroup.
      split; [apply sort_by_perm |].
      split; [apply (sort_by_sorted _ Hcmp) |].
      split; [reflexivity |].
      intros Hd Hdigits. unfold sort_block. apply sort_by_ext_in.
      intros x y Hx Hy. apply Hd; apply Hdigits.
      * unfold tables_of_block in Hx. now apply filter_In in Hx.
      * unfold tables_of_block in Hy. now apply filter_In in Hy.
Qed.

Lemma block_sorted_by_locale_compare_witness :
  exists blocks : list (string * list Table),
    groupByBlock code_unit_compare Sample.numbered = Value blocks /\
    map fst blocks = ["A"] /\
    forall cards, In ("A", cards) blocks ->
                  StronglySorted (number_le code_unit_compare) cards.
Proof.
  destruct (block_sorted_by_locale_compare code_unit_compare Sample.numbered
              code_unit_compare_consistent) as [_ Hok].
  destruct Hok as (blocks & Heq & _ & _ & _ & Hcards).
  - intros t [<- | [<- | [<- | []]]]; reflexivity.
  - exists blocks. split; [exact Heq |]. split.
    + assert (H : Value blocks
                  = Value [ ("A", sort_block code_unit_compare
                                             Sample.numbered) ])
        by (rewrite <- Heq; reflexivity).
      inversion H. reflexivity.
    + intros cards Hin. now destruct (Hcards "A" cards Hin) as (_ & H & _).
Defined.

End Blocks.
